(** * VillageLink ML service: the recommendation core

    A shallow embedding of [ItemToItemCF] and [ContentBasedFilter] from
    [src/microservices/ml-service/app.py], and the properties of the
    specification that concern them.

    Conventions of the embedding.
    - A Python [str] is a [string]; the order of [str] is the order of code
      points, which on UTF-8 encoded text is the lexicographic order of the
      bytes, that is [String.compare].
    - A Python [int] is a [Z]; a Python [float] is an IEEE 754 binary64
      value, a [spec_float] with precision 53 and maximal exponent 1024.
    - A Python [dict] whose iteration order is observed ([.items()]) is an
      insertion-ordered association list ([dict]); a [dict] that is only
      read with [in], [get] and [[]] is a [gmap].
    - A Python exception is the [Raise] case of [outcome]. *)

From Stdlib Require Import ZArith.
From Stdlib Require Import Floats.SpecFloat.
From Stdlib Require Import Sorting.Sorted.
From stdpp Require Import gmap strings list fin_maps.

Open Scope Z_scope.

(* ===================================================================== *)
(** * Python numbers                                                      *)
(* ===================================================================== *)

Module PyNum.

(** binary64 *)
Definition prec : Z := 53.
Definition emax : Z := 1024.

Inductive pynum :=
| PInt (z : Z)
| PFloat (f : spec_float).

Inductive exn :=
| OverflowError
| ZeroDivisionError.

Inductive outcome (A : Type) :=
| Ok (a : A)
| Raise (e : exn).
Arguments Ok {A} a.
Arguments Raise {A} e.

#[global] Instance outcome_bind : MBind outcome := fun A B k m =>
  match m with
  | Ok a => k a
  | Raise e => Raise e
  end.
#[global] Instance outcome_ret : MRet outcome := @Ok.

(** [float(z)]: nearest binary64, ties to even; [OverflowError] when the
    nearest value is out of range. *)
Definition float_of_int (z : Z) : outcome spec_float :=
  match binary_normalize prec emax z 0 false with
  | S754_infinity _ => Raise OverflowError
  | f => Ok f
  end.

Definition float_is_zero (f : spec_float) : bool :=
  match f with S754_zero _ => true | _ => false end.

Definition is_nan (f : spec_float) : bool :=
  match f with S754_nan => true | _ => false end.

(** [x / y] on two [int]s with [y <> 0]: the quotient correctly rounded,
    [OverflowError] when it is out of range. *)
Definition int_truediv (x y : Z) : outcome spec_float :=
  let s := xorb (x <? 0) (y <? 0) in
  match Z.abs x with
  | 0 => Ok (S754_zero s)
  | ax =>
      let '(mz, ez, lz) := SFdiv_core_binary prec emax ax 0 (Z.abs y) 0 in
      match binary_round_aux prec emax s mz ez lz with
      | S754_infinity _ => Raise OverflowError
      | f => Ok f
      end
  end.

(** the left operand of a mixed operation is converted with [float] *)
Definition to_float (a : pynum) : outcome spec_float :=
  match a with
  | PInt z => float_of_int z
  | PFloat f => Ok f
  end.

Definition py_add (a b : pynum) : outcome pynum :=
  match a, b with
  | PInt x, PInt y => Ok (PInt (x + y))
  | _, _ =>
      f ← to_float a;
      g ← to_float b;
      Ok (PFloat (SFadd prec emax f g))
  end.

Definition py_sub (a b : pynum) : outcome pynum :=
  match a, b with
  | PInt x, PInt y => Ok (PInt (x - y))
  | _, _ =>
      f ← to_float a;
      g ← to_float b;
      Ok (PFloat (SFsub prec emax f g))
  end.

Definition py_abs (a : pynum) : pynum :=
  match a with
  | PInt x => PInt (Z.abs x)
  | PFloat f => PFloat (SFabs f)
  end.

Definition py_truediv (a b : pynum) : outcome pynum :=
  match a, b with
  | PInt x, PInt y =>
      if y =? 0 then Raise ZeroDivisionError
      else q ← int_truediv x y; Ok (PFloat q)
  | _, _ =>
      f ← to_float a;
      g ← to_float b;
      if float_is_zero g then Raise ZeroDivisionError
      else Ok (PFloat (SFdiv prec emax f g))
  end.

(** A [float] against an [int]: Python compares the two exact values. *)
Definition float_cmp_int (f : spec_float) (z : Z) : option comparison :=
  match f with
  | S754_nan => None
  | S754_infinity s => Some (if s then Lt else Gt)
  | S754_zero _ => Some (0 ?= z)
  | S754_finite s m e =>
      let v := if s then Z.neg m else Z.pos m in
      Some (if 0 <=? e then (v * 2 ^ e ?= z) else (v ?= z * 2 ^ (- e)))
  end.

Definition py_cmp (a b : pynum) : option comparison :=
  match a, b with
  | PInt x, PInt y => Some (x ?= y)
  | PFloat f, PFloat g => SFcompare f g
  | PFloat f, PInt y => float_cmp_int f y
  | PInt x, PFloat g => CompOpp <$> float_cmp_int g x
  end.

(** [a == b], [a < b], [a >= b] *)
Definition py_eq (a b : pynum) : bool :=
  match py_cmp a b with Some Eq => true | _ => false end.
Definition py_lt (a b : pynum) : bool :=
  match py_cmp a b with Some Lt => true | _ => false end.
Definition py_ge (a b : pynum) : bool :=
  match py_cmp a b with Some (Gt | Eq) => true | _ => false end.

Definition pynum_is_nan (a : pynum) : bool :=
  match a with
  | PInt _ => false
  | PFloat f => is_nan f
  end.

Definition is_infinity (f : spec_float) : bool :=
  match f with S754_infinity _ => true | _ => false end.

(** The sign of a float is [s], or the float is NaN. *)
Definition sign_is (s : bool) (f : spec_float) : Prop :=
  match f with
  | S754_zero s' | S754_infinity s' | S754_finite s' _ _ => s' = s
  | S754_nan => True
  end.

(** The scores that [_calculate_similarity] goes through: a count, or a
    float that is not negative. *)
Definition score_ok (a : pynum) : Prop :=
  match a with
  | PInt z => 0 <= z
  | PFloat f => sign_is false f
  end.

End PyNum.
Import PyNum.

Arguments float_of_int : simpl never.
Arguments int_truediv : simpl never.
Arguments py_add : simpl never.
Arguments py_sub : simpl never.
Arguments py_truediv : simpl never.

(* ===================================================================== *)
(** * Python containers                                                   *)
(* ===================================================================== *)

Section Dict.
Context {K V : Type} `{EqDecision K}.

(** An insertion-ordered [dict]: the pairs in the order of [.items()]. *)
Definition dict := list (K * V).

(** [d.get(k)] *)
Fixpoint dict_get (k : K) (d : list (K * V)) : option V :=
  match d with
  | [] => None
  | (k', v) :: d' => if decide (k = k') then Some v else dict_get k d'
  end.

(** [k in d] *)
Definition dict_mem (k : K) (d : list (K * V)) : bool :=
  match dict_get k d with Some _ => true | None => false end.

(** [d[k] = v]: a present key keeps its place, a new one goes last. *)
Fixpoint dict_set (k : K) (v : V) (d : list (K * V)) : list (K * V) :=
  match d with
  | [] => [(k, v)]
  | (k', v') :: d' =>
      if decide (k = k') then (k', v) :: d' else (k', v') :: dict_set k v d'
  end.

Definition dict_keys (d : list (K * V)) : list K := d.*1.
End Dict.
Arguments dict K V : clear implicits.

Section Sequences.
Context {A : Type}.

(** [l[:n]]: a negative [n] counts from the end. *)
Definition slice_to (n : Z) (l : list A) : list A :=
  if n <? 0 then take (Z.to_nat (Z.of_nat (length l) + n)) l
  else take (Z.to_nat n) l.

Context {B : Type} (key : A -> B) (lt : B -> B -> bool).

(** One step of a stable ascending sort: [x], which came after every
    element of [l], goes behind the elements that are not greater. *)
Fixpoint insert_asc (x : A) (l : list A) : list A :=
  match l with
  | [] => [x]
  | y :: l' => if lt (key x) (key y) then x :: l else y :: insert_asc x l'
  end.

Definition sort_asc (l : list A) : list A :=
  fold_left (fun acc x => insert_asc x acc) l [].

(** [sorted(l, key=key, reverse=True)], [l.sort(key=key, reverse=True)]:
    the list is reversed, sorted ascending and stably with [<] on the
    keys, and reversed again, so that equal keys keep their order. On
    keys that [<] orders totally every stable sort computes this list. *)
Definition sorted_reverse (l : list A) : list A :=
  reverse (sort_asc (reverse l)).

(** The two orders of a list by key, for [ge] on the keys. *)
Context (ge : B -> B -> Prop).
Definition ascending (a b : A) : Prop := ge (key b) (key a).
Definition descending (a b : A) : Prop := ge (key a) (key b).
End Sequences.

(* ===================================================================== *)
(** * ItemToItemCF                                                        *)
(* ===================================================================== *)

(** [{"user_id": str, "item_id": str, "rating": float}] *)
Record Interaction := {
  user_id : string;
  item_id : string;
  rating : pynum
}.

Record ItemToItemCF := {
  item_similarity : gmap string (dict string Z);
  item_ids : list string;
  co_occurrence : gmap (string * string) Z
}.

(** [ItemToItemCF()] *)
Definition ItemToItemCF_init : ItemToItemCF :=
  {| item_similarity := ∅; item_ids := []; co_occurrence := ∅ |}.

(** [tuple(sorted([item1, item2]))] *)
Definition sorted_pair (item1 item2 : string) : string * string :=
  if String.ltb item2 item1 then (item2, item1) else (item1, item2).

(** [if uid not in user_items: user_items[uid] = []] and
    [user_items[uid].append(iid)] *)
Definition group_item (user_items : dict string (list string))
    (uid iid : string) : dict string (list string) :=
  let user_items :=
    if dict_mem uid user_items then user_items else dict_set uid [] user_items in
  dict_set uid (default [] (dict_get uid user_items) ++ [iid]) user_items.

(** [if iid not in self.item_ids: self.item_ids.append(iid)] *)
Definition register_item (ids : list string) (iid : string) : list string :=
  if bool_decide (iid ∈ ids) then ids else ids ++ [iid].

(** First loop of [fit]: group the items by user, register new items. *)
Definition fit_group (st : dict string (list string) * list string)
    (interaction : Interaction) : dict string (list string) * list string :=
  let uid := user_id interaction in
  let iid := item_id interaction in
  (group_item st.1 uid iid, register_item st.2 iid).

(** [co.get(key, 0)] *)
Definition co_get (co : gmap (string * string) Z) (key : string * string) : Z :=
  default 0 (co !! key).

(** [co[key] = co.get(key, 0) + 1] *)
Definition bump (co : gmap (string * string) Z) (key : string * string) :
    gmap (string * string) Z :=
  <[key := co_get co key + 1]> co.

(** Second loop of [fit], for one user: every pair of positions [i < j]. *)
Fixpoint count_pairs (items : list string) (co : gmap (string * string) Z) :
    gmap (string * string) Z :=
  match items with
  | [] => co
  | item1 :: rest =>
      count_pairs rest
        (fold_left (fun co item2 => bump co (sorted_pair item1 item2)) rest co)
  end.

Definition fit_count (user_items : dict string (list string))
    (co : gmap (string * string) Z) : gmap (string * string) Z :=
  fold_left (fun co '(uid, items) => count_pairs items co) user_items co.

(** Third loop of [fit]: the row of [item]. *)
Definition fit_row (co : gmap (string * string) Z) (ids : list string)
    (item : string) : dict string Z :=
  fold_left (fun row other_item =>
      if bool_decide (item ≠ other_item)
      then dict_set other_item (co_get co (sorted_pair item other_item)) row
      else row)
    ids [].

Definition fit_similarity (co : gmap (string * string) Z) (ids : list string)
    (sim : gmap string (dict string Z)) : gmap string (dict string Z) :=
  fold_left (fun sim item => <[item := fit_row co ids item]> sim) ids sim.

(** [self.fit(interactions)] *)
Definition fit (interactions : list Interaction) (self : ItemToItemCF) :
    ItemToItemCF :=
  let '(user_items, ids) :=
    fold_left fit_group interactions ([], item_ids self) in
  let co := fit_count user_items (co_occurrence self) in
  {| item_similarity := fit_similarity co ids (item_similarity self);
     item_ids := ids;
     co_occurrence := co |}.

(** [self.item_similarity[item][other_item]], where it is defined *)
Definition similarity (self : ItemToItemCF) (item other_item : string) :
    option Z :=
  row ← item_similarity self !! item; dict_get other_item row.

(** The loop of [recommend]: the score of every candidate. *)
Definition recommend_row (user_history : list string)
    (scores : dict string Z) (row : dict string Z) : dict string Z :=
  fold_left (fun scores '(other_item, sim) =>
      if bool_decide (other_item ∈ user_history) then scores
      else dict_set other_item (default 0 (dict_get other_item scores) + sim)
             scores)
    row scores.

Definition recommend_step (self : ItemToItemCF) (user_history : list string)
    (scores : dict string Z) (hist_item : string) : dict string Z :=
  match item_similarity self !! hist_item with
  | Some row => recommend_row user_history scores row
  | None => scores
  end.

Definition recommend_scores (self : ItemToItemCF)
    (user_history : list string) : dict string Z :=
  fold_left (recommend_step self user_history) user_history [].

(** [self.recommend(user_history, n)] *)
Definition recommend (self : ItemToItemCF) (user_history : list string)
    (n : Z) : list (string * Z) :=
  slice_to n (sorted_reverse snd Z.ltb (recommend_scores self user_history)).

(** The states a recommender goes through: constructed, then fitted any
    number of times. *)
Inductive fitted : ItemToItemCF -> Prop :=
| fitted_init : fitted ItemToItemCF_init
| fitted_fit interactions self :
    fitted self -> fitted (fit interactions self).

(** The two components of the first loop of [fit], each by itself. *)
Definition user_items_of (interactions : list Interaction)
    (user_items : dict string (list string)) : dict string (list string) :=
  fold_left (fun ui x => group_item ui (user_id x) (item_id x))
    interactions user_items.

Definition item_ids_of (interactions : list Interaction) (ids : list string) :
    list string :=
  fold_left (fun ids x => register_item ids (item_id x)) interactions ids.

(** An update of the table that adds to every count an amount of its
    own. *)
Definition additive (F : gmap (string * string) Z -> gmap (string * string) Z)
    : Prop :=
  exists c : string * string -> Z,
    forall co k, co_get (F co) k = co_get co k + c k.

(** Every key of the table is a sorted pair. *)
Definition canonical (co : gmap (string * string) Z) : Prop :=
  forall k, is_Some (co !! k) -> String.leb k.1 k.2 = true.

(** In a fitted state the table has one row for every known item, and
    nothing else. *)
Definition rows_complete (self : ItemToItemCF) : Prop :=
  forall item,
    item_similarity self !! item =
    if bool_decide (item ∈ item_ids self)
    then Some (fit_row (co_occurrence self) (item_ids self) item)
    else None.

(** [fit] reads [user_id] and [item_id] only. *)
Definition same_events (x y : Interaction) : Prop :=
  user_id x = user_id y /\ item_id x = item_id y.

Definition interaction (u i : string) (r : Z) : Interaction :=
  {| user_id := u; item_id := i; rating := PInt r |}.

(** [SAMPLE_INTERACTIONS] and the global [cf_model] *)
Definition SAMPLE_INTERACTIONS : list Interaction :=
  [ interaction "user1" "samosa" 5; interaction "user1" "chai" 5;
    interaction "user1" "pakora" 4; interaction "user2" "samosa" 5;
    interaction "user2" "chai" 4; interaction "user2" "jalebi" 5;
    interaction "user3" "chai" 5; interaction "user3" "pakora" 5;
    interaction "user3" "poha" 4; interaction "user4" "dosa" 5;
    interaction "user4" "idli" 5; interaction "user4" "sambar" 5;
    interaction "user5" "dosa" 4; interaction "user5" "chai" 5;
    interaction "user5" "vada" 4 ].

Definition cf_model : ItemToItemCF := fit SAMPLE_INTERACTIONS ItemToItemCF_init.

(* ===================================================================== *)
(** * ContentBasedFilter                                                  *)
(* ===================================================================== *)

(** A feature value: a number, a boolean or a string. *)
Inductive scalar :=
| SInt (z : Z)
| SFloat (f : spec_float)
| SBool (b : bool)
| SStr (s : string).

(** The number a value stands for where [isinstance(v, (int, float))]
    holds: [bool] is a subclass of [int], with [True] as 1 and [False]
    as 0. *)
Definition as_number (v : scalar) : option pynum :=
  match v with
  | SInt z => Some (PInt z)
  | SFloat f => Some (PFloat f)
  | SBool b => Some (PInt (if b then 1 else 0))
  | SStr _ => None
  end.

(** [isinstance(v, (int, float))] *)
Definition isinstance_int_float (v : scalar) : bool :=
  match as_number v with Some _ => true | None => false end.

(** [a == b] *)
Definition scalar_eq (a b : scalar) : bool :=
  match a, b with
  | SStr s, SStr t => bool_decide (s = t)
  | SStr _, _ | _, SStr _ => false
  | _, _ =>
      match as_number a, as_number b with
      | Some x, Some y => py_eq x y
      | _, _ => false
      end
  end.

Record ContentBasedFilter := {
  items : dict string (dict string scalar)
}.

(** [ContentBasedFilter()] *)
Definition ContentBasedFilter_init : ContentBasedFilter := {| items := [] |}.

(** [self.add_item(item_id, features)] *)
Definition add_item (item_id : string) (features : dict string scalar)
    (self : ContentBasedFilter) : ContentBasedFilter :=
  {| items := dict_set item_id features (items self) |}.

(** [1 / (1 + abs(value - other))] *)
Definition numerical_similarity (value other : pynum) : outcome pynum :=
  d ← py_sub value other;
  t ← py_add (PInt 1) (py_abs d);
  py_truediv (PInt 1) t.

(** The body of the loop of [_calculate_similarity]. *)
Definition similarity_step (item : dict string scalar) (score : pynum)
    (kv : string * scalar) : outcome pynum :=
  let '(key, value) := kv in
  match dict_get key item with
  | Some other =>
      if scalar_eq other value then py_add score (PInt 1)
      else
        match as_number value, as_number other with
        | Some x, Some y => c ← numerical_similarity x y; py_add score c
        | _, _ => Ok score
        end
  | None => Ok score
  end.

(** A [for] loop whose body may raise. *)
Fixpoint for_each {A S : Type} (body : S -> A -> outcome S) (l : list A)
    (s : S) : outcome S :=
  match l with
  | [] => Ok s
  | x :: l' => s' ← body s x; for_each body l' s'
  end.

(** [self._calculate_similarity(query, item)] *)
Definition _calculate_similarity (query item : dict string scalar) :
    outcome pynum :=
  for_each (similarity_step item) query (PInt 0).

(** The loop of [find_similar]: the score of every stored item. *)
Definition find_similar_scores (self : ContentBasedFilter)
    (query_features : dict string scalar) : outcome (list (string * pynum)) :=
  for_each (fun scores '(item_id, features) =>
      score ← _calculate_similarity query_features features;
      Ok (scores ++ [(item_id, score)]))
    (items self) [].

(** [self.find_similar(query_features, n)]. The sort of the scores is
    [sorted_reverse]; it is the list that [list.sort] builds where no score
    is NaN, and the properties of the ranking below are stated there. *)
Definition find_similar (self : ContentBasedFilter)
    (query_features : dict string scalar) (n : Z) :
    outcome (list (string * pynum)) :=
  scores ← find_similar_scores self query_features;
  Ok (slice_to n (sorted_reverse snd py_lt scores)).

(** The values that the specification counts as numbers, read as it is
    worded: a boolean against a number is a mismatch of types. *)
Definition spec_numeric (v : scalar) : bool :=
  match v with
  | SInt _ | SFloat _ => true
  | SBool _ | SStr _ => false
  end.

(** The contribution of one key of the query, by the four cases of the
    specification; [numeric] says which values are numbers. *)
Definition contribution (numeric : scalar -> bool) (value : scalar)
    (candidate : option scalar) : outcome pynum :=
  match candidate with
  | None => Ok (PInt 0)
  | Some other =>
      if scalar_eq other value then Ok (PInt 1)
      else if numeric value && numeric other then
        match as_number value, as_number other with
        | Some x, Some y => numerical_similarity x y
        | _, _ => Ok (PInt 0)
        end
      else Ok (PInt 0)
  end.

(** The sum of the contributions of the keys of the query, in the order
    of the query. *)
Definition score_sum (numeric : scalar -> bool)
    (query item : dict string scalar) : outcome pynum :=
  for_each (fun score kv =>
      c ← contribution numeric kv.2 (dict_get kv.1 item); py_add score c)
    query (PInt 0).

Definition scalar_is_nan (v : scalar) : bool :=
  match v with
  | SFloat f => is_nan f
  | _ => false
  end.

(** No value of the feature mapping is NaN. *)
Definition no_nan_features (features : dict string scalar) : Prop :=
  Forall (fun kv => scalar_is_nan kv.2 = false) features.

(** [cb_filter] with two routes *)
Definition route_filter : ContentBasedFilter :=
  add_item "y" [("price", SInt 15)]
    (add_item "x" [("price", SInt 10)] ContentBasedFilter_init).


(* ===================================================================== *)
(** * What [fit] and [recommend] compute, said by lists                   *)
(* ===================================================================== *)

(** The items of one user in the interactions, in their order. *)
Definition items_of (uid : string) (interactions : list Interaction) :
    list string :=
  item_id <$> filter (fun x => user_id x = uid) interactions.

(** The users of the interactions, each once, in the order in which they
    come first. *)
Definition users_of (interactions : list Interaction) : list string :=
  fold_left register_item (user_id <$> interactions) [].

(** The sorted pairs of the items at two positions [i < j] of a list. *)
Fixpoint position_pairs (items : list string) : list (string * string) :=
  match items with
  | [] => []
  | item1 :: rest => (sorted_pair item1 <$> rest) ++ position_pairs rest
  end.

(** How often [x] is in [l]. *)
Definition occurrences {A} `{EqDecision A} (x : A) (l : list A) : Z :=
  Z.of_nat (length (filter (fun y => y = x) l)).

(** The pairs that the interactions count: those of every user's list. *)
Definition counted_pairs (interactions : list Interaction) :
    list (string * string) :=
  users_of interactions ≫= fun uid =>
    position_pairs (items_of uid interactions).

(** The sum of the similarities of [c] to the known items of the history,
    an item as often as the history has it. *)
Definition history_score (self : ItemToItemCF) (user_history : list string)
    (c : string) : Z :=
  foldr Z.add 0
    ((fun x => co_get (co_occurrence self) (sorted_pair x c)) <$>
     filter (fun x => x ∈ item_ids self) user_history).

(** Every stored count is at least 1. *)
Definition positive_counts (co : gmap (string * string) Z) : Prop :=
  forall key v, co !! key = Some v -> 1 <= v.

(* ===================================================================== *)
(** * What [find_similar] computes, said by lists                         *)
(* ===================================================================== *)

(** The key of the query is in the item with an equal value. *)
Definition is_match (item : dict string scalar) (kv : string * scalar) : bool :=
  match dict_get kv.1 item with
  | Some other => scalar_eq other kv.2
  | None => false
  end.

(** The key of the query is in the item with a different value, and both
    values pass [isinstance(v, (int, float))]. *)
Definition is_numeric_pair (item : dict string scalar)
    (kv : string * scalar) : bool :=
  match dict_get kv.1 item with
  | Some other =>
      negb (scalar_eq other kv.2) &&
      isinstance_int_float kv.2 && isinstance_int_float other
  | None => false
  end.

(** The stores that [add_item] builds. *)
Inductive filled : ContentBasedFilter -> Prop :=
| filled_init : filled ContentBasedFilter_init
| filled_add item_id features self :
    filled self -> filled (add_item item_id features self).

(* ===================================================================== *)
(** * Facts about the containers                                          *)
(* ===================================================================== *)

Section SequenceFacts.
Context {A B : Type} (key : A -> B) (lt : B -> B -> bool).

Lemma slice_to_zero (l : list A) : slice_to 0 l = [].
Proof. reflexivity. Qed.

Lemma slice_to_nil (n : Z) : slice_to n ([] : list A) = [].
Proof. unfold slice_to. destruct (n <? 0); apply take_nil. Qed.

Lemma slice_to_sublist (n : Z) (l : list A) : slice_to n l `sublist_of` l.
Proof. unfold slice_to. destruct (n <? 0); apply sublist_take. Qed.

Lemma slice_to_all (n : Z) (l : list A) :
  Z.of_nat (length l) <= n -> slice_to n l = l.
Proof.
  intros Hn. unfold slice_to.
  destruct (n <? 0) eqn:E; [lia|].
  apply take_ge. lia.
Qed.

Lemma slice_to_negative (n : Z) (l : list A) :
  n < 0 -> slice_to n l = take (length l - Z.to_nat (- n)) l.
Proof.
  intros Hn. unfold slice_to.
  destruct (n <? 0) eqn:E; [|lia].
  f_equal. lia.
Qed.

Lemma elem_of_slice_to (n : Z) (l : list A) x : x ∈ slice_to n l -> x ∈ l.
Proof. intros H. eapply elem_of_sublist; [exact H|apply slice_to_sublist]. Qed.

Lemma insert_asc_perm x (l : list A) : insert_asc key lt x l ≡ₚ x :: l.
Proof.
  induction l as [|y l IH]; simpl; [done|].
  destruct (lt (key x) (key y)); [done|].
  rewrite IH. apply Permutation_swap.
Qed.

Lemma sort_asc_perm (l : list A) : sort_asc key lt l ≡ₚ l.
Proof.
  unfold sort_asc.
  enough (forall acc, fold_left (fun acc x => insert_asc key lt x acc) l acc
                      ≡ₚ acc ++ l) as H by apply (H []).
  induction l as [|x l IH]; intros acc; simpl.
  - by rewrite app_nil_r.
  - rewrite IH, insert_asc_perm. simpl. apply Permutation_middle.
Qed.

Lemma sorted_reverse_perm (l : list A) : sorted_reverse key lt l ≡ₚ l.
Proof.
  unfold sorted_reverse.
  by rewrite reverse_Permutation, sort_asc_perm, reverse_Permutation.
Qed.

Lemma sorted_reverse_length (l : list A) :
  length (sorted_reverse key lt l) = length l.
Proof. by rewrite sorted_reverse_perm. Qed.

Lemma elem_of_sorted_reverse (l : list A) x :
  x ∈ sorted_reverse key lt l <-> x ∈ l.
Proof. by rewrite sorted_reverse_perm. Qed.

(** Sortedness, for keys on which [lt] is the strict part of a total
    order; [ok] singles such keys out. *)
Context (ge : B -> B -> Prop) (ok : B -> Prop).
Abbreviation ascending := (ascending key ge).
Abbreviation descending := (descending key ge).
Hypothesis lt_ge : forall x y, ok x -> ok y -> lt x y = true -> ge y x.
Hypothesis nlt_ge : forall x y, ok x -> ok y -> lt x y = false -> ge x y.

Lemma insert_asc_HdRel x y (l : list A) :
  ascending y x -> HdRel ascending y l ->
  HdRel ascending y (insert_asc key lt x l).
Proof.
  intros Hyx Hl. destruct l as [|z l]; simpl.
  - by constructor.
  - destruct (lt (key x) (key z)); constructor; [done|].
    by inversion Hl.
Qed.

Lemma insert_asc_sorted x (l : list A) :
  ok (key x) -> Forall (fun a => ok (key a)) l ->
  Sorted ascending l -> Sorted ascending (insert_asc key lt x l).
Proof.
  intros Hx. induction l as [|y l IH]; intros Hok Hs; simpl.
  - repeat constructor.
  - inversion Hok as [|? ? Hy Hl]; subst.
    inversion Hs as [|? ? Hs' Hhd]; subst.
    destruct (lt (key x) (key y)) eqn:E.
    + constructor; [done|]. constructor. by apply lt_ge.
    + constructor; [by apply IH|].
      apply insert_asc_HdRel; [|done]. by apply nlt_ge.
Qed.

Lemma sort_asc_sorted (l : list A) :
  Forall (fun a => ok (key a)) l -> Sorted ascending (sort_asc key lt l).
Proof.
  unfold sort_asc.
  enough (forall acc, Forall (fun a => ok (key a)) acc ->
            Sorted ascending acc -> Forall (fun a => ok (key a)) l ->
            Sorted ascending
              (fold_left (fun acc x => insert_asc key lt x acc) l acc)) as H
    by (apply H; constructor).
  induction l as [|x l IH]; intros acc Hacc Hs Hl; simpl; [done|].
  inversion Hl; subst. apply IH; [|by apply insert_asc_sorted|done].
  rewrite insert_asc_perm. by constructor.
Qed.

Lemma Sorted_snoc (R : A -> A -> Prop) (l : list A) x :
  Sorted R l -> (forall y, last l = Some y -> R y x) -> Sorted R (l ++ [x]).
Proof.
  induction l as [|y l IH]; intros Hs Hlast; simpl.
  - repeat constructor.
  - inversion Hs as [|? ? Hs' Hhd]; subst.
    constructor.
    + apply IH; [done|]. intros z Hz. apply Hlast.
      destruct l; [done|]. exact Hz.
    + destruct l as [|z l]; simpl.
      * constructor. by apply Hlast.
      * constructor. by inversion Hhd.
Qed.

Lemma Sorted_reverse (R : A -> A -> Prop) (l : list A) :
  Sorted R l -> Sorted (flip R) (reverse l).
Proof.
  induction 1 as [|x l Hs IH Hhd]; [constructor|].
  rewrite reverse_cons. apply Sorted_snoc; [done|].
  intros y Hy. rewrite last_reverse in Hy.
  destruct l as [|z l]; simplify_eq/=. by inversion Hhd.
Qed.

Lemma Sorted_take (R : A -> A -> Prop) (l : list A) k :
  Sorted R l -> Sorted R (take k l).
Proof.
  intros Hs. revert k. induction Hs as [|x l Hs IH Hhd]; intros [|k]; simpl;
    try constructor; [apply IH|].
  destruct Hhd; destruct k; simpl; by constructor.
Qed.

Lemma Sorted_slice_to (R : A -> A -> Prop) (l : list A) n :
  Sorted R l -> Sorted R (slice_to n l).
Proof. intros Hs. unfold slice_to. destruct (n <? 0); by apply Sorted_take. Qed.

Lemma sorted_reverse_sorted (l : list A) :
  Forall (fun a => ok (key a)) l ->
  Sorted descending (sorted_reverse key lt l).
Proof.
  intros Hl. unfold sorted_reverse.
  apply (Sorted_reverse ascending), sort_asc_sorted.
  by rewrite reverse_Permutation.
Qed.
End SequenceFacts.

Section DictFacts.
Context {K V : Type} `{EqDecision K}.
Implicit Types (d : list (K * V)) (k : K) (v : V).

Lemma dict_get_set_eq d k v : dict_get k (dict_set k v d) = Some v.
Proof.
  induction d as [|[k' v'] d IH]; simpl.
  - by rewrite decide_True.
  - destruct (decide (k = k')) as [->|Hne]; simpl.
    + by rewrite decide_True.
    + by rewrite decide_False.
Qed.

Lemma dict_get_set_ne d k k' v :
  k ≠ k' -> dict_get k' (dict_set k v d) = dict_get k' d.
Proof.
  intros Hne. induction d as [|[k'' v''] d IH]; simpl.
  - by rewrite decide_False.
  - destruct (decide (k = k'')) as [->|Hne']; simpl.
    + by rewrite !decide_False.
    + destruct (decide (k' = k'')); [done|apply IH].
Qed.

Lemma dict_get_set d k k' v :
  dict_get k' (dict_set k v d) =
  if decide (k = k') then Some v else dict_get k' d.
Proof.
  destruct (decide (k = k')) as [->|Hne].
  - apply dict_get_set_eq.
  - by apply dict_get_set_ne.
Qed.

Lemma elem_of_dict_keys d k : k ∈ dict_keys d <-> is_Some (dict_get k d).
Proof.
  unfold dict_keys. induction d as [|[k' v'] d IH]; simpl.
  - split; [by intros ?%elem_of_nil|by intros [? ?]].
  - rewrite elem_of_cons, IH.
    destruct (decide (k = k')) as [->|Hne]; [split; eauto|].
    split; [by intros [?|?]|by right].
Qed.

Lemma dict_get_elem_of d k v : dict_get k d = Some v -> (k, v) ∈ d.
Proof.
  induction d as [|[k' v'] d IH]; simpl; [done|].
  destruct (decide (k = k')) as [->|Hne].
  - intros [= ->]. apply list_elem_of_here.
  - intros Hd. by apply list_elem_of_further, IH.
Qed.

Lemma dict_keys_set d k v :
  dict_keys (dict_set k v d) =
  if dict_mem k d then dict_keys d else dict_keys d ++ [k].
Proof.
  unfold dict_keys, dict_mem. induction d as [|[k' v'] d IH]; simpl; [done|].
  destruct (decide (k = k')) as [->|Hne]; simpl; [done|].
  change (list_fmap (K * V)%type K fst) with (fmap (M:=list) (@fst K V)).
  rewrite IH. by destruct (dict_get k d).
Qed.

Lemma elem_of_dict_keys_set d k k' v :
  k' ∈ dict_keys (dict_set k v d) <-> k' = k \/ k' ∈ dict_keys d.
Proof.
  rewrite !elem_of_dict_keys, dict_get_set.
  destruct (decide (k = k')) as [->|Hne]; [split; eauto|].
  split; [by right|by intros [->|?]].
Qed.

Lemma dict_set_length_le d k v : (length d <= length (dict_set k v d))%nat.
Proof.
  induction d as [|[k' v'] d IH]; simpl; [lia|].
  destruct (decide (k = k')); simpl; lia.
Qed.
End DictFacts.

(* ===================================================================== *)
(** * Facts about [fit]                                                   *)
(* ===================================================================== *)

Lemma sorted_pair_comm (a b : string) : sorted_pair a b = sorted_pair b a.
Proof.
  unfold sorted_pair, String.ltb. rewrite (String.compare_antisym a b).
  destruct (String.compare b a) eqn:E; simpl; try done.
  apply String.compare_eq_iff in E. by subst.
Qed.

Lemma sorted_pair_canonical (a b : string) :
  String.leb (sorted_pair a b).1 (sorted_pair a b).2 = true.
Proof.
  unfold sorted_pair, String.ltb, String.leb.
  destruct (String.compare b a) eqn:E; simpl.
  - rewrite String.compare_antisym, E. done.
  - by rewrite E.
  - rewrite String.compare_antisym, E. done.
Qed.

Lemma leb_both_eq (a b : string) :
  String.leb a b = true -> String.leb b a = true -> a = b.
Proof. apply String.leb_antisym. Qed.

Lemma fit_group_fold interactions user_items ids :
  fold_left fit_group interactions (user_items, ids) =
  (user_items_of interactions user_items, item_ids_of interactions ids).
Proof.
  revert user_items ids.
  induction interactions as [|x l IH]; intros ui ids; simpl; [done|].
  unfold fit_group at 2. simpl. apply IH.
Qed.

Lemma fit_unfold interactions self :
  fit interactions self =
  let ids := item_ids_of interactions (item_ids self) in
  let co := fit_count (user_items_of interactions []) (co_occurrence self) in
  {| item_similarity := fit_similarity co ids (item_similarity self);
     item_ids := ids;
     co_occurrence := co |}.
Proof. unfold fit. by rewrite fit_group_fold. Qed.

Lemma fit_item_ids interactions self :
  item_ids (fit interactions self) =
  item_ids_of interactions (item_ids self).
Proof. by rewrite fit_unfold. Qed.

Lemma fit_co_occurrence interactions self :
  co_occurrence (fit interactions self) =
  fit_count (user_items_of interactions []) (co_occurrence self).
Proof. by rewrite fit_unfold. Qed.

Lemma fit_item_similarity interactions self :
  item_similarity (fit interactions self) =
  fit_similarity (co_occurrence (fit interactions self))
    (item_ids (fit interactions self)) (item_similarity self).
Proof. by rewrite fit_unfold. Qed.

(** ** The item set *)

Lemma register_item_elem ids iid x :
  x ∈ register_item ids iid <-> x ∈ ids \/ x = iid.
Proof.
  unfold register_item. case_bool_decide as Hin.
  - split; [by left|]. by intros [?| ->].
  - rewrite elem_of_app, list_elem_of_singleton. done.
Qed.

Lemma register_item_NoDup ids iid : NoDup ids -> NoDup (register_item ids iid).
Proof.
  intros Hnd. unfold register_item. case_bool_decide as Hin; [done|].
  apply NoDup_app. split_and!; [done| |apply NoDup_singleton].
  intros x Hx ->%list_elem_of_singleton. done.
Qed.

Lemma item_ids_of_snoc interactions x ids :
  item_ids_of (interactions ++ [x]) ids =
  register_item (item_ids_of interactions ids) (item_id x).
Proof. unfold item_ids_of. by rewrite fold_left_app. Qed.

Lemma item_ids_of_NoDup interactions ids :
  NoDup ids -> NoDup (item_ids_of interactions ids).
Proof.
  revert ids. induction interactions as [|x l IH]; intros ids Hnd; [done|].
  apply IH. by apply register_item_NoDup.
Qed.

Lemma item_ids_of_elem interactions ids x :
  x ∈ item_ids_of interactions ids <->
  x ∈ ids \/ x ∈ item_id <$> interactions.
Proof.
  revert ids. induction interactions as [|y l IH]; intros ids; simpl.
  - rewrite elem_of_nil. tauto.
  - unfold item_ids_of in *. simpl. rewrite IH, register_item_elem, elem_of_cons.
    tauto.
Qed.

(** The items of a second fit go behind the ones that are there. *)
Lemma item_ids_of_merge interactions ids :
  item_ids_of interactions ids =
  ids ++ filter (fun i => i ∉ ids) (item_ids_of interactions []).
Proof.
  induction interactions as [|x l IH] using rev_ind.
  - simpl. by rewrite app_nil_r.
  - rewrite !item_ids_of_snoc, IH. unfold register_item.
    set (new := item_ids_of l []).
    destruct (decide (item_id x ∈ ids)) as [Hin|Hin];
      destruct (decide (item_id x ∈ new)) as [Hnew|Hnew].
    + rewrite !bool_decide_true; [done|done|]. apply elem_of_app. by left.
    + rewrite bool_decide_true by (apply elem_of_app; by left).
      rewrite bool_decide_false by done.
      rewrite filter_app, filter_cons_False, filter_nil, app_nil_r; [done|].
      by intros ?.
    + rewrite !bool_decide_true; [done|done|].
      apply elem_of_app. right. by apply list_elem_of_filter.
    + rewrite !bool_decide_false; [|done|].
      * rewrite filter_app, filter_cons_True, filter_nil by done.
        by rewrite app_assoc.
      * rewrite elem_of_app, list_elem_of_filter. tauto.
Qed.

(** ** The co-occurrence table *)

Lemma co_get_bump co key k :
  co_get (bump co key) k = co_get co k + (if decide (key = k) then 1 else 0).
Proof.
  unfold bump, co_get. destruct (decide (key = k)) as [->|Hne].
  - by rewrite lookup_insert_eq.
  - rewrite lookup_insert_ne by done. lia.
Qed.

Lemma additive_id : additive (fun co => co).
Proof. exists (fun _ => 0). intros. lia. Qed.

Lemma additive_bump key : additive (fun co => bump co key).
Proof.
  exists (fun k => if decide (key = k) then 1 else 0).
  intros. apply co_get_bump.
Qed.

Lemma additive_compose F G :
  additive F -> additive G -> additive (fun co => G (F co)).
Proof.
  intros [c Hc] [d Hd]. exists (fun k => c k + d k).
  intros co k. rewrite Hd, Hc. lia.
Qed.

Lemma additive_fold {A} (f : gmap (string * string) Z -> A ->
    gmap (string * string) Z) (l : list A) :
  (forall x, additive (fun co => f co x)) ->
  additive (fun co => fold_left f l co).
Proof.
  intros Hf. induction l as [|x l IH]; simpl; [apply additive_id|].
  apply (additive_compose (fun co => f co x) (fun co => fold_left f l co));
    [apply Hf|apply IH].
Qed.

Lemma additive_count_pairs items : additive (count_pairs items).
Proof.
  induction items as [|item1 rest IH]; simpl; [apply additive_id|].
  apply (additive_compose
           (fun co => fold_left
              (fun co item2 => bump co (sorted_pair item1 item2)) rest co)
           (count_pairs rest)); [|done].
  apply additive_fold. intros item2. apply additive_bump.
Qed.

Lemma additive_fit_count user_items : additive (fit_count user_items).
Proof.
  unfold fit_count. apply additive_fold. intros [uid items].
  apply additive_count_pairs.
Qed.

Lemma additive_from_empty F co k :
  additive F -> co_get (F co) k = co_get co k + co_get (F ∅) k.
Proof.
  intros [c Hc]. rewrite (Hc co), (Hc ∅). unfold co_get at 3.
  rewrite lookup_empty. simpl. lia.
Qed.

Lemma fit_co_get interactions self k :
  co_get (co_occurrence (fit interactions self)) k =
  co_get (co_occurrence self) k +
  co_get (co_occurrence (fit interactions ItemToItemCF_init)) k.
Proof.
  rewrite !fit_co_occurrence. simpl.
  apply (additive_from_empty (fit_count _)), additive_fit_count.
Qed.

Lemma co_get_empty k : co_get ∅ k = 0.
Proof. unfold co_get. by rewrite lookup_empty. Qed.

Lemma canonical_empty : canonical ∅.
Proof. intros k [v Hv]. by rewrite lookup_empty in Hv. Qed.

Lemma canonical_bump co a b : canonical co -> canonical (bump co (sorted_pair a b)).
Proof.
  intros Hco k. unfold bump.
  destruct (decide (sorted_pair a b = k)) as [<-|Hne].
  - intros _. apply sorted_pair_canonical.
  - rewrite lookup_insert_ne by done. apply Hco.
Qed.

Lemma canonical_count_pairs items co :
  canonical co -> canonical (count_pairs items co).
Proof.
  revert co. induction items as [|item1 rest IH]; intros co Hco; [done|].
  simpl. apply IH. clear IH. revert co Hco.
  induction rest as [|item2 rest IH]; intros co Hco; [done|].
  simpl. by apply IH, canonical_bump.
Qed.

Lemma canonical_fit_count user_items co :
  canonical co -> canonical (fit_count user_items co).
Proof.
  unfold fit_count. revert co.
  induction user_items as [|[uid items] l IH]; intros co Hco; [done|].
  simpl. by apply IH, canonical_count_pairs.
Qed.

(** ** The similarity table *)

Lemma fit_row_get co ids item other :
  dict_get other (fit_row co ids item) =
  if bool_decide (other ∈ ids /\ item ≠ other)
  then Some (co_get co (sorted_pair item other)) else None.
Proof.
  unfold fit_row.
  enough (forall row,
    dict_get other (fold_left (fun row other_item =>
        if bool_decide (item ≠ other_item)
        then dict_set other_item (co_get co (sorted_pair item other_item)) row
        else row) ids row) =
    if bool_decide (other ∈ ids /\ item ≠ other)
    then Some (co_get co (sorted_pair item other))
    else dict_get other row) as H by apply (H []).
  induction ids as [|x ids IH]; intros row.
  - rewrite bool_decide_false; [done|]. by intros [?%elem_of_nil _].
  - cbn [fold_left]. rewrite IH. clear IH.
    destruct (decide (item = x)) as [->|Hx].
    + rewrite (bool_decide_false (x ≠ x)) by (by intros ?).
      apply (f_equal (fun b : bool => if b then _ else _)), bool_decide_ext.
      rewrite elem_of_cons. intuition congruence.
    + rewrite (bool_decide_true (item ≠ x)) by done. rewrite dict_get_set.
      destruct (decide (x = other)) as [->|Hxo].
      * rewrite (bool_decide_true (other ∈ other :: ids /\ _))
          by (split; [apply list_elem_of_here|done]).
        by destruct (bool_decide _).
      * apply (f_equal (fun b : bool => if b then _ else _)), bool_decide_ext.
        rewrite elem_of_cons. intuition congruence.
Qed.

Lemma fit_row_elem co ids item other v :
  (other, v) ∈ fit_row co ids item -> v = co_get co (sorted_pair item other).
Proof.
  unfold fit_row.
  enough (forall row,
    (forall k w, (k, w) ∈ row -> w = co_get co (sorted_pair item k)) ->
    forall k w, (k, w) ∈ fold_left (fun row other_item =>
        if bool_decide (item ≠ other_item)
        then dict_set other_item (co_get co (sorted_pair item other_item)) row
        else row) ids row -> w = co_get co (sorted_pair item k)) as H.
  { apply H. by intros k w ?%elem_of_nil. }
  induction ids as [|x ids IH]; intros row Hrow; simpl; [done|].
  apply IH. case_bool_decide; [|done].
  clear IH. induction row as [|[k' w'] row IHrow]; simpl.
  - by intros k w [= -> ->]%list_elem_of_singleton.
  - intros k w. destruct (decide (x = k')) as [->|Hne].
    + intros [[= -> ->]|Hin]%elem_of_cons; [done|].
      apply Hrow. by apply list_elem_of_further.
    + intros [[= -> ->]|Hin]%elem_of_cons.
      * apply Hrow, list_elem_of_here.
      * apply IHrow; [|done]. intros ? ? ?.
        by apply Hrow, list_elem_of_further.
Qed.

Lemma fit_row_keys co ids item other :
  other ∈ (fit_row co ids item).*1 <-> other ∈ ids /\ item ≠ other.
Proof.
  change ((fit_row co ids item).*1) with (dict_keys (fit_row co ids item)).
  rewrite elem_of_dict_keys, fit_row_get.
  case_bool_decide as Hc; split; [done|by eauto|by intros [? ?]|done].
Qed.

Lemma fit_similarity_lookup co ids sim item :
  fit_similarity co ids sim !! item =
  if bool_decide (item ∈ ids) then Some (fit_row co ids item) else sim !! item.
Proof.
  unfold fit_similarity.
  enough (forall l, fold_left (fun sim item => <[item := fit_row co ids item]> sim)
                      l sim !! item =
            if bool_decide (item ∈ l) then Some (fit_row co ids item)
            else sim !! item) as H by apply H.
  intros l. revert sim.
  induction l as [|x l IH]; intros sim; [done|].
  cbn [fold_left]. rewrite IH. destruct (decide (item ∈ l)) as [Hin|Hin].
  - rewrite !bool_decide_true; [done| |done]. by apply list_elem_of_further.
  - rewrite (bool_decide_false (item ∈ l)) by done.
    destruct (decide (x = item)) as [->|Hne].
    + rewrite bool_decide_true by apply list_elem_of_here.
      by rewrite lookup_insert_eq.
    + rewrite bool_decide_false, lookup_insert_ne; [done..|].
      rewrite elem_of_cons. intuition congruence.
Qed.

Lemma rows_complete_init : rows_complete ItemToItemCF_init.
Proof.
  intros item. simpl. by rewrite lookup_empty.
Qed.

Lemma rows_complete_fit interactions self :
  rows_complete self -> rows_complete (fit interactions self).
Proof.
  intros Hself item. rewrite fit_item_similarity, fit_similarity_lookup.
  case_bool_decide as Hin; [done|].
  rewrite Hself, bool_decide_false; [done|].
  intros Hold. apply Hin. rewrite fit_item_ids, item_ids_of_elem. by left.
Qed.

Lemma fitted_rows_complete self : fitted self -> rows_complete self.
Proof.
  induction 1; [apply rows_complete_init|by apply rows_complete_fit].
Qed.

Lemma fitted_canonical self : fitted self -> canonical (co_occurrence self).
Proof.
  induction 1 as [|interactions self _ IH]; [apply canonical_empty|].
  rewrite fit_co_occurrence. by apply canonical_fit_count.
Qed.

Lemma fitted_NoDup self : fitted self -> NoDup (item_ids self).
Proof.
  induction 1 as [|interactions self _ IH]; [apply NoDup_nil_2|].
  rewrite fit_item_ids. by apply item_ids_of_NoDup.
Qed.

Lemma similarity_fitted self a b :
  rows_complete self ->
  similarity self a b =
  if bool_decide (a ∈ item_ids self /\ b ∈ item_ids self /\ a ≠ b)
  then Some (co_get (co_occurrence self) (sorted_pair a b)) else None.
Proof.
  intros Hrows. unfold similarity. rewrite Hrows.
  destruct (decide (a ∈ item_ids self)) as [Ha|Ha].
  - rewrite bool_decide_true by done. simpl. rewrite fit_row_get.
    apply (f_equal (fun b : bool => if b then _ else _)), bool_decide_ext.
    tauto.
  - rewrite !bool_decide_false by tauto. done.
Qed.

Lemma fit_nil self : rows_complete self -> fit [] self = self.
Proof.
  intros Hrows. rewrite fit_unfold. simpl.
  destruct self as [sim ids co]. simpl in *. f_equal.
  apply map_eq. intros item. rewrite fit_similarity_lookup.
  case_bool_decide as Hin; [|done].
  specialize (Hrows item). simpl in Hrows.
  by rewrite bool_decide_true in Hrows.
Qed.

(* ===================================================================== *)
(** * Facts about [recommend]                                             *)
(* ===================================================================== *)

Lemma recommend_row_keys h scores row k :
  k ∈ dict_keys (recommend_row h scores row) <->
  k ∈ dict_keys scores \/ (k ∈ row.*1 /\ k ∉ h).
Proof.
  unfold recommend_row. revert scores.
  induction row as [|[other sim] row IH]; intros scores.
  - simpl. rewrite elem_of_nil. tauto.
  - cbn [fold_left]. rewrite IH, fmap_cons, elem_of_cons. cbn [fst].
    case_bool_decide as Hin.
    + split; [tauto|]. intros [?|[[->|?] ?]]; tauto.
    + rewrite elem_of_dict_keys_set. split.
      * intros [[->|?]|?]; tauto.
      * intros [?|[[->|?] ?]]; tauto.
Qed.

Lemma recommend_scores_keys self h k :
  k ∈ dict_keys (recommend_scores self h) <->
  (k ∉ h) /\ (exists hist_item row,
    hist_item ∈ h /\ item_similarity self !! hist_item = Some row /\
    k ∈ row.*1).
Proof.
  unfold recommend_scores.
  enough (forall l scores,
    k ∈ dict_keys (fold_left (recommend_step self h) l scores) <->
    k ∈ dict_keys scores \/
    ((k ∉ h) /\ (exists hist_item row,
      hist_item ∈ l /\ item_similarity self !! hist_item = Some row /\
      k ∈ row.*1))) as H.
  { rewrite H. unfold dict_keys at 1. simpl. rewrite elem_of_nil. tauto. }
  induction l as [|x l IH]; intros scores; simpl.
  - split; [tauto|]. intros [?|[_ (? & ? & ?%elem_of_nil & _)]]; tauto.
  - rewrite IH. unfold recommend_step.
    destruct (item_similarity self !! x) as [row|] eqn:Hx.
    + rewrite recommend_row_keys. split.
      * intros [[?|[? ?]]|(? & hi & r & ? & ? & ?)]; [tauto| |].
        -- right. split; [done|]. exists x, row. by rewrite elem_of_cons; eauto.
        -- right. split; [done|]. exists hi, r. rewrite elem_of_cons; eauto.
      * intros [?|(? & hi & r & [->|?]%elem_of_cons & Hr & ?)]; [tauto| |].
        -- pose proof (eq_trans (eq_sym Hx) Hr) as [= ->]. tauto.
        -- right. split; [done|]. by exists hi, r.
    + split.
      * intros [?|(? & hi & r & ? & ? & ?)]; [tauto|].
        right. split; [done|]. exists hi, r. rewrite elem_of_cons; eauto.
      * intros [?|(? & hi & r & [->|?]%elem_of_cons & Hr & ?)]; [tauto| |].
        -- by pose proof (eq_trans (eq_sym Hx) Hr).
        -- right. split; [done|]. by exists hi, r.
Qed.

Lemma recommend_row_ext h h' scores row :
  (forall k, k ∈ row.*1 -> k ∈ h <-> k ∈ h') ->
  recommend_row h scores row = recommend_row h' scores row.
Proof.
  unfold recommend_row. revert scores.
  induction row as [|[other sim] row IH]; intros scores Hrow; simpl; [done|].
  rewrite (bool_decide_ext (other ∈ h) (other ∈ h'))
    by (apply Hrow; simpl; apply list_elem_of_here).
  apply IH. intros k Hk. apply Hrow. simpl. by apply list_elem_of_further.
Qed.

Lemma recommend_row_zero h scores row c :
  (forall v, (c, v) ∈ row -> v = 0) ->
  (forall v, dict_get c scores = Some v -> v = 0) ->
  forall v, dict_get c (recommend_row h scores row) = Some v -> v = 0.
Proof.
  unfold recommend_row. revert scores.
  induction row as [|[other sim] row IH]; intros scores Hrow Hsc; simpl;
    [done|].
  apply IH.
  - intros v Hv. by apply Hrow, list_elem_of_further.
  - case_bool_decide as Hin; [done|]. intros v. rewrite dict_get_set.
    destruct (decide (other = c)) as [->|Hne]; [|apply Hsc].
    intros [= <-]. rewrite (Hrow sim) by apply list_elem_of_here.
    destruct (dict_get c scores) as [w|] eqn:Hw; simpl; [|done].
    by rewrite (Hsc w).
Qed.

Lemma recommend_nil_scores self h n :
  recommend_scores self h = [] -> recommend self h n = [].
Proof.
  intros Hs. unfold recommend. rewrite Hs. apply slice_to_nil.
Qed.

Lemma dict_keys_set_NoDup {V} (d : list (string * V)) k v :
  NoDup (dict_keys d) -> NoDup (dict_keys (dict_set k v d)).
Proof.
  intros Hnd. rewrite dict_keys_set. unfold dict_mem.
  destruct (dict_get k d) eqn:Hk; [done|].
  apply NoDup_app. split_and!; [done| |apply NoDup_singleton].
  intros x Hx ->%list_elem_of_singleton.
  apply elem_of_dict_keys in Hx as [? ?]. congruence.
Qed.

Lemma recommend_scores_NoDup self h : NoDup (dict_keys (recommend_scores self h)).
Proof.
  unfold recommend_scores.
  enough (forall l scores, NoDup (dict_keys scores) ->
            NoDup (dict_keys (fold_left (recommend_step self h) l scores))) as H
    by (apply H, NoDup_nil_2).
  induction l as [|x l IH]; intros scores Hnd; simpl; [done|].
  apply IH. unfold recommend_step.
  destruct (item_similarity self !! x) as [row|]; [|done].
  unfold recommend_row. revert scores Hnd.
  induction row as [|[other sim] row IHrow]; intros scores Hnd; simpl; [done|].
  apply IHrow. case_bool_decide; [done|]. by apply dict_keys_set_NoDup.
Qed.

(** In a fitted state the candidates of [recommend] are the known items
    outside a history that holds a known item. *)
Lemma recommend_scores_candidates self h hist_item :
  rows_complete self -> hist_item ∈ h -> hist_item ∈ item_ids self ->
  forall c, c ∈ dict_keys (recommend_scores self h) <->
            c ∈ filter (fun c => c ∉ h) (item_ids self).
Proof.
  intros Hrows Hh Hknown c.
  rewrite recommend_scores_keys, list_elem_of_filter. split.
  - intros (Hc & hi & row & Hhi & Hrow & Hk). split; [done|].
    rewrite Hrows in Hrow. case_bool_decide; [|done].
    injection Hrow as <-. by apply fit_row_keys in Hk as [? ?].
  - intros [Hc Hin]. split; [done|].
    exists hist_item, (fit_row (co_occurrence self) (item_ids self) hist_item).
    split_and!; [done| |].
    + by rewrite Hrows, bool_decide_true.
    + apply fit_row_keys. split; [done|]. by intros ->.
Qed.

Lemma recommend_scores_unknown self h :
  (forall x, x ∈ h -> item_similarity self !! x = None) ->
  recommend_scores self h = [].
Proof.
  intros Hh. unfold recommend_scores.
  enough (forall l scores, (forall x, x ∈ l -> x ∈ h) ->
            fold_left (recommend_step self h) l scores = scores) as H
    by by apply H.
  induction l as [|x l IH]; intros scores Hl; simpl; [done|].
  unfold recommend_step at 2. rewrite Hh by apply Hl, list_elem_of_here.
  apply IH. intros y Hy. by apply Hl, list_elem_of_further.
Qed.

Lemma recommend_scores_filter self h :
  rows_complete self ->
  recommend_scores self h =
  recommend_scores self (filter (fun x => x ∈ item_ids self) h).
Proof.
  intros Hrows. unfold recommend_scores.
  set (h' := filter (fun x => x ∈ item_ids self) h).
  enough (forall l scores,
    fold_left (recommend_step self h) l scores =
    fold_left (recommend_step self h')
      (filter (fun x => x ∈ item_ids self) l) scores) as H by apply H.
  induction l as [|x l IH]; intros scores; [done|].
  cbn [fold_left]. rewrite IH. unfold recommend_step at 2.
  rewrite Hrows. destruct (decide (x ∈ item_ids self)) as [Hx|Hx].
  - rewrite bool_decide_true, filter_cons_True by done. cbn [fold_left].
    f_equal. unfold recommend_step. rewrite Hrows, bool_decide_true by done.
    apply recommend_row_ext. intros k [Hk _]%fit_row_keys.
    unfold h'. rewrite list_elem_of_filter. tauto.
  - by rewrite bool_decide_false, filter_cons_False by done.
Qed.

Lemma recommend_scores_zero self h c :
  rows_complete self ->
  (forall x, x ∈ h -> co_get (co_occurrence self) (sorted_pair x c) = 0) ->
  forall v, dict_get c (recommend_scores self h) = Some v -> v = 0.
Proof.
  intros Hrows Hzero. unfold recommend_scores.
  enough (forall l scores, (forall x, x ∈ l -> x ∈ h) ->
    (forall v, dict_get c scores = Some v -> v = 0) ->
    forall v, dict_get c (fold_left (recommend_step self h) l scores) = Some v ->
              v = 0) as H by by apply H.
  induction l as [|x l IH]; intros scores Hl Hsc; [done|].
  cbn [fold_left]. apply IH.
  - intros y Hy. by apply Hl, list_elem_of_further.
  - unfold recommend_step. rewrite Hrows. case_bool_decide; [|done].
    apply recommend_row_zero; [|done].
    intros v ->%fit_row_elem. apply Hzero, Hl, list_elem_of_here.
Qed.

Lemma fit_same_events interactions1 interactions2 self :
  Forall2 same_events interactions1 interactions2 ->
  fit interactions1 self = fit interactions2 self.
Proof.
  intros HS. unfold fit.
  enough (forall st, fold_left fit_group interactions1 st =
                     fold_left fit_group interactions2 st) as -> by done.
  induction HS as [|x y l1 l2 [Hu Hi] _ IH]; intros st; [done|].
  simpl. unfold fit_group at 2 4. rewrite Hu, Hi. apply IH.
Qed.

Lemma filter_none {A} (P : A -> Prop) `{forall x, Decision (P x)} (l : list A) :
  (forall x, x ∈ l -> ~ P x) -> filter P l = [].
Proof.
  induction l as [|x l IH]; intros Hl; [done|].
  rewrite filter_cons_False by apply Hl, list_elem_of_here.
  apply IH. intros y Hy. by apply Hl, list_elem_of_further.
Qed.

Lemma fit_again_item_ids interactions self :
  item_ids (fit interactions (fit interactions self)) =
  item_ids (fit interactions self).
Proof.
  rewrite !fit_item_ids.
  rewrite (item_ids_of_merge interactions (item_ids_of interactions _)).
  rewrite filter_none; [apply app_nil_r|].
  intros x Hx Hn. apply Hn, item_ids_of_elem. right.
  by apply item_ids_of_elem in Hx as [Hx%elem_of_nil|Hx].
Qed.

(* ===================================================================== *)
(** * ItemToItemCF: the properties of the specification                  *)
(* ===================================================================== *)

(** C1, as stated, fails: [fit] never empties [item_ids], [co_occurrence]
    or [item_similarity], so a second [fit] starts from what the first one
    left. After [fit(S1)] and [fit(S2)] the pair [("a", "b")] has count 2
    where [fit(S2)] alone gives 1, and [fit([])] after [fit(S1)] leaves
    the items of [S1] in place. *)
Lemma fit_replace_counterexample :
  let S1 := [interaction "u1" "a" 5; interaction "u1" "b" 5] in
  let S2 := [interaction "u2" "a" 4; interaction "u2" "b" 3] in
  co_get (co_occurrence (fit S2 (fit S1 ItemToItemCF_init))) ("a", "b") = 2 /\
  co_get (co_occurrence (fit S2 ItemToItemCF_init)) ("a", "b") = 1 /\
  similarity (fit S2 (fit S1 ItemToItemCF_init)) "a" "b" = Some 2 /\
  similarity (fit S2 ItemToItemCF_init) "a" "b" = Some 1 /\
  fit S2 (fit S1 ItemToItemCF_init) ≠ fit S2 ItemToItemCF_init /\
  item_ids (fit [] (fit S1 ItemToItemCF_init)) = ["a"; "b"] /\
  fit [] (fit S1 ItemToItemCF_init) ≠ ItemToItemCF_init.
Proof.
  intros S1 S2. split_and!; try (vm_compute; reflexivity).
  - intros H.
    apply (f_equal (fun s => co_get (co_occurrence s) ("a", "b"))) in H.
    vm_compute in H. discriminate H.
  - intros H. apply (f_equal item_ids) in H. vm_compute in H. discriminate H.
Qed.

(** C1, amended: [fit] accumulates. After [fit(S1)] and then [fit(S2)] on
    a new recommender the item set is the one of [S1] followed by the items
    that [S2] adds to it, every co-occurrence count is the sum of the counts
    of [S1] alone and of [S2] alone, and the similarity table holds these
    sums for every two distinct known items; [fit([])] changes nothing, so
    it leaves an empty state only on a recommender that is still empty. *)
Theorem fit_accumulates (S1 S2 : list Interaction) :
  let s1 := fit S1 ItemToItemCF_init in
  let s2 := fit S2 ItemToItemCF_init in
  let s12 := fit S2 s1 in
  item_ids s12 =
    item_ids s1 ++ filter (fun i => i ∉ item_ids s1) (item_ids s2) /\
  (forall k, co_get (co_occurrence s12) k =
             co_get (co_occurrence s1) k + co_get (co_occurrence s2) k) /\
  (forall a b, a ∈ item_ids s12 -> b ∈ item_ids s12 -> a ≠ b ->
     similarity s12 a b =
     Some (co_get (co_occurrence s1) (sorted_pair a b) +
           co_get (co_occurrence s2) (sorted_pair a b))) /\
  fit [] s1 = s1 /\
  fit [] ItemToItemCF_init = ItemToItemCF_init.
Proof.
  intros s1 s2 s12.
  assert (fitted s1) as Hs1 by (apply fitted_fit, fitted_init).
  assert (fitted s12) as Hs12 by by apply fitted_fit.
  split_and!.
  - unfold s12, s2. rewrite !fit_item_ids. apply item_ids_of_merge.
  - intros k. unfold s12, s2. apply fit_co_get.
  - intros a b Ha Hb Hab.
    rewrite similarity_fitted by by apply fitted_rows_complete.
    rewrite bool_decide_true by done. f_equal. apply fit_co_get.
  - by apply fit_nil, fitted_rows_complete.
  - apply fit_nil, rows_complete_init.
Qed.

(** C2, as stated, fails: the second [fit(S)] counts every pair of [S]
    once more. *)
Lemma fit_idempotent_counterexample :
  let S := [interaction "u1" "a" 5; interaction "u1" "b" 5] in
  similarity (fit S ItemToItemCF_init) "a" "b" = Some 1 /\
  similarity (fit S (fit S ItemToItemCF_init)) "a" "b" = Some 2 /\
  co_occurrence (fit S ItemToItemCF_init) !! ("a", "b") = Some 1 /\
  co_occurrence (fit S (fit S ItemToItemCF_init)) !! ("a", "b") = Some 2 /\
  fit S (fit S ItemToItemCF_init) ≠ fit S ItemToItemCF_init.
Proof.
  intros S. split_and!; try (vm_compute; reflexivity).
  intros H. apply (f_equal (fun s => similarity s "a" "b")) in H.
  vm_compute in H. discriminate H.
Qed.

(** C2, amended: a second [fit(S)] leaves the item set as the first one
    left it and adds to every co-occurrence count what [S] alone counts;
    on a new recommender every count and every similarity after two calls
    is twice the one after one call. *)
Theorem fit_twice (S : list Interaction) (self : ItemToItemCF) :
  let s1 := fit S self in
  let s2 := fit S s1 in
  let alone := fit S ItemToItemCF_init in
  item_ids s2 = item_ids s1 /\
  (forall k, co_get (co_occurrence s2) k =
             co_get (co_occurrence s1) k + co_get (co_occurrence alone) k) /\
  (forall k, co_get (co_occurrence (fit S alone)) k =
             2 * co_get (co_occurrence alone) k) /\
  (forall a b, similarity (fit S alone) a b = Z.mul 2 <$> similarity alone a b).
Proof.
  intros s1 s2 alone.
  split_and!.
  - apply fit_again_item_ids.
  - intros k. apply fit_co_get.
  - intros k. unfold alone. rewrite fit_co_get. lia.
  - intros a b.
    assert (fitted alone) as Ha by (apply fitted_fit, fitted_init).
    rewrite (similarity_fitted (fit S alone))
      by by apply fitted_rows_complete, fitted_fit.
    rewrite (similarity_fitted alone) by by apply fitted_rows_complete.
    unfold alone. rewrite fit_again_item_ids.
    case_bool_decide; [|done]. simpl. f_equal. rewrite fit_co_get. lia.
Qed.

(** C5: in every state that [fit] calls lead to, the similarity of two
    distinct known items is defined and the same in both directions, and
    every key of the co-occurrence table is a sorted pair, so that no pair
    of distinct items is stored under both orderings. *)
Theorem similarity_symmetric (self : ItemToItemCF) :
  fitted self ->
  (forall a b, a ∈ item_ids self -> b ∈ item_ids self -> a ≠ b ->
     is_Some (similarity self a b) /\
     similarity self a b = similarity self b a) /\
  (forall a b, is_Some (co_occurrence self !! (a, b)) ->
     sorted_pair a b = (a, b) /\
     (a ≠ b -> co_occurrence self !! (b, a) = None)).
Proof.
  intros Hfit. split.
  - intros a b Ha Hb Hab.
    rewrite !similarity_fitted by by apply fitted_rows_complete.
    rewrite !bool_decide_true by done.
    split; [by eexists|]. by rewrite sorted_pair_comm.
  - intros a b Hab. pose proof (fitted_canonical _ Hfit) as Hcan.
    pose proof (Hcan _ Hab) as Hle. simpl in Hle. split.
    + unfold sorted_pair, String.ltb. unfold String.leb in Hle.
      rewrite String.compare_antisym.
      by destruct (String.compare a b).
    + intros Hne. destruct (co_occurrence self !! (b, a)) as [v|] eqn:Hba;
        [|done].
      destruct Hne. apply leb_both_eq; [done|].
      apply (Hcan (b, a)). by eexists.
Qed.

Lemma similarity_symmetric_witness :
  fitted cf_model /\
  (is_Some (similarity cf_model "chai" "samosa") /\
   similarity cf_model "chai" "samosa" = similarity cf_model "samosa" "chai").
Proof.
  assert (fitted cf_model) as H by apply fitted_fit, fitted_init.
  split; [exact H|].
  apply (similarity_symmetric cf_model H); [| |done];
    apply (bool_decide_unpack _); vm_compute; exact I.
Defined.

(** C7: no item of the history is among the recommendations, in every
    state, for every history and every [n]. *)
Theorem recommend_excludes_history (self : ItemToItemCF)
    (user_history : list string) (n : Z) :
  Forall (fun r => r.1 ∉ user_history) (recommend self user_history n).
Proof.
  apply Forall_forall. intros [item score] Hin. simpl.
  apply elem_of_slice_to, elem_of_sorted_reverse in Hin.
  assert (item ∈ dict_keys (recommend_scores self user_history)) as Hk.
  { unfold dict_keys. apply list_elem_of_fmap. by exists (item, score). }
  by apply recommend_scores_keys in Hk as [? _].
Qed.

(** C8: two interaction sequences that differ in their ratings only are
    fitted to the same item set, co-occurrence table and similarity table,
    and give the same recommendations. *)
Theorem fit_ignores_rating (S1 S2 : list Interaction) (self : ItemToItemCF) :
  Forall2 same_events S1 S2 ->
  fit S1 self = fit S2 self /\
  forall user_history n,
    recommend (fit S1 self) user_history n =
    recommend (fit S2 self) user_history n.
Proof.
  intros HS. pose proof (fit_same_events S1 S2 self HS) as Heq.
  split; [done|]. intros h n. by rewrite Heq.
Qed.

Lemma fit_ignores_rating_witness :
  let S1 := [interaction "u1" "a" 5; interaction "u1" "b" 1] in
  let S2 := [interaction "u1" "a" 2; interaction "u1" "b" 4] in
  Forall2 same_events S1 S2 /\
  fit S1 cf_model = fit S2 cf_model.
Proof.
  intros S1 S2.
  assert (Forall2 same_events S1 S2) as H by (repeat constructor).
  split; [exact H|]. exact (proj1 (fit_ignores_rating S1 S2 cf_model H)).
Defined.

(** C9: in a fitted state the items of the history that the model does not
    know are skipped, the recommendations are those of the known part of
    the history, and a history without a known item, the empty one
    included, gives the empty list; [recommend] is a total function, it
    raises nothing. *)
Theorem recommend_skips_unknown (self : ItemToItemCF)
    (user_history : list string) (n : Z) :
  fitted self ->
  recommend self user_history n =
    recommend self (filter (fun x => x ∈ item_ids self) user_history) n /\
  ((forall x, x ∈ user_history -> x ∉ item_ids self) ->
   recommend self user_history n = []).
Proof.
  intros Hfit. pose proof (fitted_rows_complete _ Hfit) as Hrows. split.
  - unfold recommend. by rewrite <- recommend_scores_filter.
  - intros Hh. apply recommend_nil_scores, recommend_scores_unknown.
    intros x Hx. rewrite Hrows, bool_decide_false; [done|]. by apply Hh.
Qed.

Lemma recommend_skips_unknown_witness :
  fitted cf_model /\
  recommend cf_model ["pizza"; "chai"; "burger"] 3 =
    recommend cf_model ["chai"] 3 /\
  recommend cf_model ["pizza"; "burger"] 3 = [].
Proof.
  assert (fitted cf_model) as H by apply fitted_fit, fitted_init.
  split; [exact H|]. split.
  - exact (proj1 (recommend_skips_unknown cf_model
                    ["pizza"; "chai"; "burger"] 3 H)).
  - apply (recommend_skips_unknown cf_model ["pizza"; "burger"] 3 H).
    intros x Hx. apply (bool_decide_unpack _).
    repeat (apply elem_of_cons in Hx as [->|Hx]; [vm_compute; exact I|]).
    by apply elem_of_nil in Hx.
Defined.

(** C10: in a fitted state, for a history that holds a known item, the
    candidates of [recommend] are exactly the known items outside the
    history; with [n] at least their number all of them are returned, and
    one that never occurred together with an item of the history is
    returned with score 0. *)
Theorem recommend_includes_zero_scores (self : ItemToItemCF)
    (user_history : list string) (n : Z) (hist_item : string) :
  fitted self ->
  hist_item ∈ user_history -> hist_item ∈ item_ids self ->
  let candidates := filter (fun c => c ∉ user_history) (item_ids self) in
  dict_keys (recommend_scores self user_history) ≡ₚ candidates /\
  (Z.of_nat (length candidates) <= n ->
   (recommend self user_history n).*1 ≡ₚ candidates /\
   forall c, c ∈ candidates ->
     (forall x, x ∈ user_history ->
        co_get (co_occurrence self) (sorted_pair x c) = 0) ->
     (c, 0) ∈ recommend self user_history n).
Proof.
  intros Hfit Hh Hknown candidates.
  pose proof (fitted_rows_complete _ Hfit) as Hrows.
  assert (dict_keys (recommend_scores self user_history) ≡ₚ candidates)
    as Hperm.
  { apply NoDup_Permutation.
    - apply recommend_scores_NoDup.
    - apply NoDup_filter. by apply fitted_NoDup.
    - by apply (recommend_scores_candidates self user_history hist_item). }
  split; [done|]. intros Hn.
  assert (recommend self user_history n =
          sorted_reverse snd Z.ltb (recommend_scores self user_history))
    as Hrec.
  { unfold recommend. apply slice_to_all.
    rewrite sorted_reverse_length. rewrite <- Hperm in Hn.
    unfold dict_keys in Hn. by rewrite length_fmap in Hn. }
  split.
  - rewrite Hrec, sorted_reverse_perm. exact Hperm.
  - intros c Hc Hzero. rewrite Hrec. apply elem_of_sorted_reverse.
    assert (c ∈ dict_keys (recommend_scores self user_history)) as Hc'
      by by rewrite Hperm.
    apply elem_of_dict_keys in Hc' as [v Hv].
    rewrite (recommend_scores_zero self user_history c Hrows Hzero v Hv) in Hv.
    by apply dict_get_elem_of.
Qed.

Lemma recommend_includes_zero_scores_witness :
  fitted cf_model /\ "chai" ∈ ["chai"] /\ "chai" ∈ item_ids cf_model /\
  (recommend cf_model ["chai"] 8).*1 ≡ₚ
    filter (fun c => c ∉ ["chai"]) (item_ids cf_model) /\
  ("idli", 0) ∈ recommend cf_model ["chai"] 8.
Proof.
  assert (fitted cf_model) as H by apply fitted_fit, fitted_init.
  assert ("chai" ∈ ["chai"]) as Hh by apply list_elem_of_here.
  assert ("chai" ∈ item_ids cf_model) as Hk
    by (apply (bool_decide_unpack _); vm_compute; exact I).
  split_and!; [exact H|exact Hh|exact Hk| |].
  - apply (recommend_includes_zero_scores cf_model ["chai"] 8 "chai" H Hh Hk).
    vm_compute. discriminate.
  - apply (recommend_includes_zero_scores cf_model ["chai"] 8 "chai" H Hh Hk).
    + vm_compute. discriminate.
    + apply (bool_decide_unpack _). vm_compute. exact I.
    + intros x ->%list_elem_of_singleton. vm_compute. reflexivity.
Defined.

(* ===================================================================== *)
(** * Facts about Python numbers                                          *)
(* ===================================================================== *)

Lemma binary_round_aux_sign sx mx ex lx :
  sign_is sx (binary_round_aux prec emax sx mx ex lx).
Proof.
  unfold binary_round_aux.
  destruct (shr_fexp prec emax mx ex lx) as [mrs' e'].
  destruct (shr_fexp prec emax _ e' loc_Exact) as [mrs'' e''].
  destruct (shr_m mrs''); [done| |done].
  by destruct (Z.leb _ _).
Qed.

Lemma binary_round_sign sx mx ex : sign_is sx (binary_round prec emax sx mx ex).
Proof.
  unfold binary_round. destruct (shl_align _ _ _) as [mz ez].
  apply binary_round_aux_sign.
Qed.

Lemma binary_normalize_nonneg z e :
  0 <= z -> sign_is false (binary_normalize prec emax z e false).
Proof.
  intros Hz. destruct z as [|p|p]; simpl; [done| |lia].
  apply binary_round_sign.
Qed.

Lemma SFadd_nonneg f g :
  sign_is false f -> sign_is false g -> sign_is false (SFadd prec emax f g).
Proof.
  destruct f as [[]| []| |[] mf ef], g as [[]| []| |[] mg eg];
    simpl; try done.
  intros _ _. apply binary_round_sign.
Qed.

Lemma SFabs_nonneg f : sign_is false (SFabs f).
Proof. by destruct f. Qed.

Lemma SFdiv_nonneg f g :
  sign_is false f -> sign_is false g -> sign_is false (SFdiv prec emax f g).
Proof.
  destruct f as [[]| []| |[] mf ef], g as [[]| []| |[] mg eg];
    simpl; try done.
  intros _ _. destruct (SFdiv_core_binary _ _ _ _ _ _) as [[mz ez] lz].
  apply binary_round_aux_sign.
Qed.

Lemma to_float_nonneg a f : score_ok a -> to_float a = Ok f -> sign_is false f.
Proof.
  destruct a as [z|g]; simpl.
  - intros Hz. unfold float_of_int.
    pose proof (binary_normalize_nonneg z 0 Hz) as Hs.
    destruct (binary_normalize prec emax z 0 false); intros [= <-]; done.
  - by intros ? [= <-].
Qed.

Lemma py_add_ok a b c :
  score_ok a -> score_ok b -> py_add a b = Ok c -> score_ok c.
Proof.
  intros Ha Hb. unfold py_add.
  destruct a as [x|f], b as [y|g]; simpl in *.
  - intros [= <-]. simpl. lia.
  - destruct (float_of_int x) eqn:Hx; simpl; [|done].
    intros [= <-]. simpl. apply SFadd_nonneg; [|done].
    by apply (to_float_nonneg (PInt x)).
  - destruct (float_of_int y) eqn:Hy; simpl; [|done].
    intros [= <-]. simpl. apply SFadd_nonneg; [done|].
    by apply (to_float_nonneg (PInt y)).
  - intros [= <-]. simpl. by apply SFadd_nonneg.
Qed.

Lemma py_abs_ok a : score_ok (py_abs a).
Proof. destruct a; simpl; [lia|apply SFabs_nonneg]. Qed.

Lemma int_truediv_nonneg x y f :
  0 <= x -> 0 <= y -> int_truediv x y = Ok f -> sign_is false f.
Proof.
  intros Hx Hy. unfold int_truediv.
  replace (x <? 0) with false by lia. replace (y <? 0) with false by lia.
  simpl. destruct (Z.abs x); [by intros [= <-]| |].
  all: destruct (SFdiv_core_binary _ _ _ _ _ _) as [[mz ez] lz];
    pose proof (binary_round_aux_sign false mz ez lz) as Hs;
    destruct (binary_round_aux prec emax false mz ez lz);
    intros [= <-]; done.
Qed.

Lemma py_truediv_ok a b c :
  score_ok a -> score_ok b -> py_truediv a b = Ok c -> score_ok c.
Proof.
  intros Ha Hb. unfold py_truediv.
  destruct a as [x|f], b as [y|g]; simpl in *.
  - destruct (y =? 0); [done|].
    destruct (int_truediv x y) eqn:Hq; simpl; [|done].
    intros [= <-]. simpl. by apply (int_truediv_nonneg x y).
  - destruct (float_of_int x) eqn:Hx; simpl; [|done].
    destruct (float_is_zero g); [done|].
    intros [= <-]. simpl. apply SFdiv_nonneg; [|done].
    by apply (to_float_nonneg (PInt x)).
  - destruct (float_of_int y) as [g|] eqn:Hy; simpl; [|done].
    destruct (float_is_zero g); [done|].
    intros [= <-]. simpl. apply SFdiv_nonneg; [done|].
    by apply (to_float_nonneg (PInt y)).
  - destruct (float_is_zero g); [done|].
    intros [= <-]. simpl. by apply SFdiv_nonneg.
Qed.

Lemma numerical_similarity_ok x y c :
  numerical_similarity x y = Ok c -> score_ok c.
Proof.
  unfold numerical_similarity.
  destruct (py_sub x y) as [d|] eqn:Hd; simpl; [|done].
  destruct (py_add (PInt 1) (py_abs d)) as [t|] eqn:Ht; simpl; [|done].
  apply py_truediv_ok; [simpl; lia|].
  apply (py_add_ok (PInt 1) (py_abs d)); [simpl; lia|apply py_abs_ok|done].
Qed.

(** Adding the integer 0 leaves such a score as it is. *)
Lemma py_add_zero a : score_ok a -> py_add a (PInt 0) = Ok a.
Proof.
  destruct a as [z|f]; unfold py_add; simpl.
  - intros _. by rewrite Z.add_0_r.
  - intros Hf. change (float_of_int 0) with (Ok (S754_zero false)). simpl.
    by destruct f as [[]| | |].
Qed.

(** ** Where NaN comes from *)

Lemma shr_1_nonneg mrs : 0 <= shr_m mrs -> 0 <= shr_m (shr_1 mrs).
Proof.
  destruct mrs as [m r s]. simpl.
  destruct m as [|[p|p|]|[p|p|]]; simpl; lia.
Qed.

Lemma iter_pos_invariant {A} (P : A -> Prop) (f : A -> A) p x :
  (forall y, P y -> P (f y)) -> P x -> P (@SpecFloat.iter_pos A f p x).
Proof.
  intros Hf. revert x. induction p as [p IH|p IH|]; intros x Hx; simpl.
  - by apply IH, IH, Hf.
  - by apply IH, IH.
  - by apply Hf.
Qed.

Lemma shr_fexp_nonneg m e l :
  0 <= m -> 0 <= shr_m (shr_fexp prec emax m e l).1.
Proof.
  intros Hm. unfold shr_fexp, shr.
  assert (0 <= shr_m (shr_record_of_loc m l)) as H0
    by by destruct l as [|[]].
  destruct (fexp prec emax (Zdigits2 m + e) - e) as [|p|p]; simpl; try done.
  apply (iter_pos_invariant (fun mrs => 0 <= shr_m mrs) shr_1); [|done].
  apply shr_1_nonneg.
Qed.

Lemma round_nearest_even_nonneg m l :
  0 <= m -> 0 <= round_nearest_even m l.
Proof.
  intros Hm. destruct l as [|[]]; simpl; try done; [|lia].
  destruct (Z.even m); lia.
Qed.

Lemma binary_round_aux_no_nan sx mx ex lx :
  0 <= mx -> is_nan (binary_round_aux prec emax sx mx ex lx) = false.
Proof.
  intros Hm. unfold binary_round_aux.
  pose proof (shr_fexp_nonneg mx ex lx Hm) as H1.
  destruct (shr_fexp prec emax mx ex lx) as [mrs' e']. simpl in H1.
  pose proof (shr_fexp_nonneg _ e' loc_Exact
    (round_nearest_even_nonneg _ (loc_of_shr_record mrs') H1)) as H2.
  destruct (shr_fexp prec emax _ e' loc_Exact) as [mrs'' e'']. simpl in H2.
  destruct (shr_m mrs''); [done| |lia].
  by destruct (Z.leb _ _).
Qed.

Lemma binary_round_no_nan sx mx ex :
  is_nan (binary_round prec emax sx mx ex) = false.
Proof.
  unfold binary_round. destruct (shl_align _ _ _) as [mz ez].
  by apply binary_round_aux_no_nan.
Qed.

Lemma binary_normalize_no_nan z e :
  is_nan (binary_normalize prec emax z e false) = false.
Proof. destruct z; simpl; [done|apply binary_round_no_nan..]. Qed.

Lemma SFadd_no_nan f g :
  sign_is false f -> sign_is false g ->
  is_nan f = false -> is_nan g = false ->
  is_nan (SFadd prec emax f g) = false.
Proof.
  destruct f as [[]| []| |[] mf ef], g as [[]| []| |[] mg eg];
    simpl; try done.
  intros _ _ _ _. apply binary_round_no_nan.
Qed.

(** A difference is NaN only for a NaN operand or for two equal
    infinities, and these compare equal. *)
Lemma SFsub_no_nan f g :
  is_nan f = false -> is_nan g = false ->
  is_infinity f = false \/ is_infinity g = false \/ SFcompare g f ≠ Some Eq ->
  is_nan (SFsub prec emax f g) = false.
Proof.
  destruct f as [[]| []| |sf mf ef], g as [[]| []| |sg mg eg];
    simpl; try done; try (intros _ _ [?|[?|?]]; done).
  intros _ _ _. apply binary_normalize_no_nan.
Qed.

Lemma SFdiv_core_binary_nonneg m1 e1 m2 e2 :
  0 <= m1 -> 0 < m2 -> 0 <= (SFdiv_core_binary prec emax m1 e1 m2 e2).1.1.
Proof.
  intros H1 H2. unfold SFdiv_core_binary.
  set (s := _ - _ - _).
  set (m' := match s with Z.pos _ => Z.shiftl m1 s | 0 => m1 | _ => 0 end).
  assert (0 <= m') as Hm'.
  { unfold m'. destruct s; [done| |done]. by apply Z.shiftl_nonneg. }
  pose proof (Z.div_pos m' m2 Hm' H2) as Hq. unfold Z.div in Hq.
  by destruct (Z.div_eucl m' m2) as [q r].
Qed.

Lemma SFdiv_no_nan f g :
  is_nan f = false -> is_nan g = false ->
  float_is_zero g = false ->
  (exists s m e, f = S754_finite s m e) ->
  is_nan (SFdiv prec emax f g) = false.
Proof.
  intros _ Hg Hz (sf & mf & ef & ->).
  destruct g as [sg|sg| |sg mg eg]; simpl in *; try done.
  pose proof (SFdiv_core_binary_nonneg (Z.pos mf) ef (Z.pos mg) eg) as Hq.
  destruct (SFdiv_core_binary _ _ _ _ _ _) as [[mz ez] lz]. simpl in Hq.
  apply binary_round_aux_no_nan, Hq; lia.
Qed.

Lemma float_of_int_no_nan z f : float_of_int z = Ok f -> is_nan f = false.
Proof.
  unfold float_of_int. pose proof (binary_normalize_no_nan z 0) as H.
  destruct (binary_normalize prec emax z 0 false); intros [= <-]; done.
Qed.

Lemma float_of_int_one : float_of_int 1 = Ok (S754_finite false 4503599627370496 (-52)).
Proof. reflexivity. Qed.

Lemma int_truediv_no_nan x y f :
  0 <= x -> 0 < y -> int_truediv x y = Ok f -> is_nan f = false.
Proof.
  intros Hx Hy. unfold int_truediv.
  destruct (Z.abs x) as [|ax|ax] eqn:Hax; [by intros [= <-]| |lia].
  pose proof (SFdiv_core_binary_nonneg (Z.pos ax) 0 (Z.abs y) 0) as Hq.
  destruct (SFdiv_core_binary _ _ _ _ _ _) as [[mz ez] lz]. simpl in Hq.
  pose proof (binary_round_aux_no_nan (xorb (x <? 0) (y <? 0)) mz ez lz) as Hn.
  destruct (binary_round_aux prec emax _ mz ez lz); intros [= <-];
    try done; apply Hn, Hq; lia.
Qed.

Lemma float_of_int_finite z f : float_of_int z = Ok f -> is_infinity f = false.
Proof.
  unfold float_of_int.
  destruct (binary_normalize prec emax z 0 false); intros [= <-]; done.
Qed.

Lemma py_sub_no_nan x y d :
  pynum_is_nan x = false -> pynum_is_nan y = false -> py_eq y x = false ->
  py_sub x y = Ok d -> pynum_is_nan d = false.
Proof.
  unfold py_sub, py_eq. destruct x as [x|f], y as [y|g]; simpl.
  - by intros _ _ _ [= <-].
  - intros _ Hg _. destruct (float_of_int x) as [f|] eqn:Hx; simpl; [|done].
    intros [= <-]. simpl. apply SFsub_no_nan; [|done|].
    + by apply (float_of_int_no_nan x).
    + left. by apply (float_of_int_finite x).
  - intros Hf _ _. destruct (float_of_int y) as [g|] eqn:Hy; simpl; [|done].
    intros [= <-]. simpl. apply SFsub_no_nan; [done| |].
    + by apply (float_of_int_no_nan y).
    + right. left. by apply (float_of_int_finite y).
  - intros Hf Hg Heq [= <-]. simpl. apply SFsub_no_nan; [done..|].
    right. right. intros Hc. by rewrite Hc in Heq.
Qed.

Lemma py_add_no_nan a b c :
  score_ok a -> score_ok b ->
  pynum_is_nan a = false -> pynum_is_nan b = false ->
  py_add a b = Ok c -> pynum_is_nan c = false.
Proof.
  unfold py_add. destruct a as [x|f], b as [y|g]; simpl.
  - by intros _ _ _ _ [= <-].
  - intros Hx Hg _ Hn. destruct (float_of_int x) as [f|] eqn:Hf; simpl; [|done].
    intros [= <-]. simpl. apply SFadd_no_nan; [|done| |done].
    + by apply (to_float_nonneg (PInt x)).
    + by apply (float_of_int_no_nan x).
  - intros Hf Hy Hn _. destruct (float_of_int y) as [g|] eqn:Hg; simpl; [|done].
    intros [= <-]. simpl. apply SFadd_no_nan; [done| |done|].
    + by apply (to_float_nonneg (PInt y)).
    + by apply (float_of_int_no_nan y).
  - intros Hf Hg Hn Hm [= <-]. simpl. by apply SFadd_no_nan.
Qed.

Lemma py_abs_no_nan a : pynum_is_nan a = false -> pynum_is_nan (py_abs a) = false.
Proof. destruct a as [x|[]]; done. Qed.

Lemma numerical_similarity_no_nan x y c :
  pynum_is_nan x = false -> pynum_is_nan y = false -> py_eq y x = false ->
  numerical_similarity x y = Ok c -> pynum_is_nan c = false.
Proof.
  intros Hx Hy Heq. unfold numerical_similarity.
  destruct (py_sub x y) as [d|] eqn:Hd; simpl; [|done].
  pose proof (py_sub_no_nan x y d Hx Hy Heq Hd) as Hdn.
  destruct (py_add (PInt 1) (py_abs d)) as [t|] eqn:Ht; simpl; [|done].
  assert (score_ok (PInt 1)) as H1 by (simpl; lia).
  pose proof (py_add_ok _ _ _ H1 (py_abs_ok d) Ht) as Htok.
  pose proof (py_add_no_nan _ _ _ H1 (py_abs_ok d) eq_refl
                (py_abs_no_nan d Hdn) Ht) as Htn.
  unfold py_truediv. destruct t as [z|g]; simpl in Htok, Htn.
  - destruct (z =? 0) eqn:Hz; [done|].
    destruct (int_truediv 1 z) as [q|] eqn:Hq; simpl; [|done].
    intros [= <-]. simpl. apply (int_truediv_no_nan 1 z); [lia|lia|done].
  - change (to_float (PInt 1)) with (float_of_int 1).
    rewrite float_of_int_one. cbn [mbind outcome_bind to_float].
    destruct (float_is_zero g) eqn:Hz; [done|].
    intros [= <-]. cbn [pynum_is_nan].
    apply (SFdiv_no_nan (S754_finite false 4503599627370496 (-52)) g);
      [done..|]. by eexists _, _, _.
Qed.

(** ** The order of numbers *)

Lemma SFcompare_antisym f g : SFcompare g f = CompOpp <$> SFcompare f g.
Proof.
  destruct f as [[]| []| |[] mf ef], g as [[]| []| |[] mg eg];
    simpl; try done.
  all: rewrite (Z.compare_antisym ef eg);
    destruct (ef ?= eg); simpl; try done.
  all: pose proof (Pos.compare_cont_antisym mf mg Eq) as H; simpl in H;
    rewrite <- H; by rewrite ?CompOpp_involutive.
Qed.

Lemma SFcompare_None f g :
  SFcompare f g = None -> is_nan f = true \/ is_nan g = true.
Proof.
  destruct f as [[]| []| |[] mf ef], g as [[]| []| |[] mg eg];
    simpl; try done; auto.
Qed.

Lemma py_cmp_antisym a b : py_cmp b a = CompOpp <$> py_cmp a b.
Proof.
  destruct a as [x|f], b as [y|g]; simpl.
  - by rewrite Z.compare_antisym.
  - destruct (float_cmp_int g x) as [c|]; simpl; [|done].
    by rewrite CompOpp_involutive.
  - done.
  - apply SFcompare_antisym.
Qed.

Lemma py_cmp_None a b :
  py_cmp a b = None -> pynum_is_nan a = true \/ pynum_is_nan b = true.
Proof.
  destruct a as [x|f], b as [y|g]; simpl; [done| | |apply SFcompare_None].
  - destruct g; simpl; try done. by right.
  - destruct f; simpl; try done. by left.
Qed.

Lemma py_lt_ge a b : py_lt a b = true -> py_ge b a = true.
Proof.
  unfold py_lt, py_ge. rewrite (py_cmp_antisym a b).
  by destruct (py_cmp a b) as [[]|].
Qed.

Lemma py_nlt_ge a b :
  pynum_is_nan a = false -> pynum_is_nan b = false ->
  py_lt a b = false -> py_ge a b = true.
Proof.
  intros Ha Hb. unfold py_lt, py_ge.
  destruct (py_cmp a b) as [[]|] eqn:Hc; try done.
  apply py_cmp_None in Hc as [?|?]; congruence.
Qed.

(* ===================================================================== *)
(** * Facts about [find_similar]                                          *)
(* ===================================================================== *)

Lemma for_each_snoc {A S} (body : S -> A -> outcome S) l x s :
  for_each body (l ++ [x]) s = s' ← for_each body l s; body s' x.
Proof.
  revert s. induction l as [|y l IH]; intros s; simpl.
  - by destruct (body s x).
  - destruct (body s y); simpl; [apply IH|done].
Qed.

(** The scores of [find_similar] pair every stored item, in the order of
    the store, with the result of [_calculate_similarity]. *)
Lemma find_similar_scores_spec self query scores :
  find_similar_scores self query = Ok scores ->
  Forall2 (fun r it => r.1 = it.1 /\
                       _calculate_similarity query it.2 = Ok r.2)
    scores (items self).
Proof.
  unfold find_similar_scores. revert scores.
  induction (items self) as [|[item_id features] l IH] using rev_ind;
    intros scores.
  - intros [= <-]. constructor.
  - rewrite for_each_snoc.
    destruct (for_each _ l []) as [scores'|] eqn:Hl; simpl; [|done].
    destruct (_calculate_similarity query features) as [score|] eqn:Hs;
      simpl; [|done].
    intros [= <-]. apply Forall2_app; [by apply IH|].
    by repeat constructor.
Qed.

Lemma find_similar_unfold self query n scores :
  find_similar_scores self query = Ok scores ->
  find_similar self query n =
  Ok (slice_to n (sorted_reverse snd py_lt scores)).
Proof. intros H. unfold find_similar. by rewrite H. Qed.

(** ** The score as a sum of contributions *)

Lemma similarity_step_sum item score kv :
  score_ok score ->
  similarity_step item score kv =
    (c ← contribution isinstance_int_float kv.2 (dict_get kv.1 item);
     py_add score c) /\
  forall score', similarity_step item score kv = Ok score' -> score_ok score'.
Proof.
  intros Hs. destruct kv as [key value]. unfold similarity_step, contribution.
  cbn [fst snd]. destruct (dict_get key item) as [other|]; simpl.
  - destruct (scalar_eq other value).
    + split; [done|]. intros s'. by apply py_add_ok.
    + unfold isinstance_int_float.
      destruct (as_number value) as [x|], (as_number other) as [y|]; simpl.
      * split; [done|]. intros s'.
        destruct (numerical_similarity x y) as [c|] eqn:Hc; simpl; [|done].
        apply py_add_ok; [done|]. by apply (numerical_similarity_ok x y).
      * split; [by rewrite py_add_zero|]. by intros s' [= <-].
      * split; [by rewrite py_add_zero|]. by intros s' [= <-].
      * split; [by rewrite py_add_zero|]. by intros s' [= <-].
  - split; [by rewrite py_add_zero|]. by intros s' [= <-].
Qed.

Lemma calculate_similarity_sum query item :
  _calculate_similarity query item =
  score_sum isinstance_int_float query item.
Proof.
  unfold _calculate_similarity, score_sum.
  assert (score_ok (PInt 0)) as H0 by (simpl; lia).
  revert H0. generalize (PInt 0) as score.
  induction query as [|kv query IH]; intros score Hs; simpl; [done|].
  destruct (similarity_step_sum item score kv Hs) as [<- Hok].
  destruct (similarity_step item score kv) as [s'|]; simpl; [|done].
  by apply IH, Hok.
Qed.

(** ** Scores that are not NaN *)

Lemma scalar_eq_numbers a b x y :
  as_number a = Some x -> as_number b = Some y -> scalar_eq a b = py_eq x y.
Proof. destruct a, b; simpl; intros [= <-] [= <-]; done. Qed.

Lemma as_number_no_nan v x :
  scalar_is_nan v = false -> as_number v = Some x -> pynum_is_nan x = false.
Proof. destruct v; simpl; intros Hv [= <-]; done. Qed.

Lemma dict_get_Forall {V} (P : string * V -> Prop) (d : list (string * V)) k v :
  Forall P d -> dict_get k d = Some v -> P (k, v).
Proof.
  intros Hd Hk. apply dict_get_elem_of in Hk.
  by apply (proj1 (Forall_forall P d) Hd).
Qed.

Lemma similarity_step_no_nan item score kv score' :
  no_nan_features item -> scalar_is_nan kv.2 = false ->
  score_ok score -> pynum_is_nan score = false ->
  similarity_step item score kv = Ok score' ->
  pynum_is_nan score' = false.
Proof.
  intros Hitem Hv Hs Hn. destruct kv as [key value]. simpl in Hv.
  unfold similarity_step.
  destruct (dict_get key item) as [other|] eqn:Hk; [|by intros [= <-]].
  pose proof (dict_get_Forall _ _ _ _ Hitem Hk) as Ho. simpl in Ho.
  destruct (scalar_eq other value) eqn:Heq.
  - by apply py_add_no_nan; [|simpl; lia| |].
  - destruct (as_number value) as [x|] eqn:Hx; [|by intros [= <-]].
    destruct (as_number other) as [y|] eqn:Hy; [|by intros [= <-]].
    destruct (numerical_similarity x y) as [c|] eqn:Hc; simpl; [|done].
    apply py_add_no_nan; [done| |done|].
    + by apply (numerical_similarity_ok x y).
    + apply (numerical_similarity_no_nan x y).
      * by apply (as_number_no_nan value).
      * by apply (as_number_no_nan other).
      * by rewrite <- (scalar_eq_numbers other value).
      * done.
Qed.

Lemma calculate_similarity_no_nan query item score :
  no_nan_features query -> no_nan_features item ->
  _calculate_similarity query item = Ok score ->
  pynum_is_nan score = false.
Proof.
  intros Hq Hitem. unfold _calculate_similarity.
  assert (score_ok (PInt 0)) as H0 by (simpl; lia).
  assert (pynum_is_nan (PInt 0) = false) as Hn by done.
  revert H0 Hn. generalize (PInt 0) as s.
  induction Hq as [|kv query Hkv Hq IH]; intros s Hs Hn; simpl.
  - by intros [= <-].
  - destruct (similarity_step item s kv) as [s'|] eqn:Hstep; simpl; [|done].
    apply IH.
    + by apply (proj2 (similarity_step_sum item s kv Hs)).
    + by apply (similarity_step_no_nan item s kv).
Qed.

Lemma find_similar_scores_no_nan self query scores :
  no_nan_features query ->
  Forall (fun it => no_nan_features it.2) (items self) ->
  find_similar_scores self query = Ok scores ->
  Forall (fun r => pynum_is_nan r.2 = false) scores.
Proof.
  intros Hq Hitems Hs. apply find_similar_scores_spec in Hs.
  induction Hs as [|r it scores l [_ Hr] _ IH]; [constructor|].
  inversion Hitems; subst. constructor; [|by apply IH].
  by apply (calculate_similarity_no_nan query it.2).
Qed.

(* ===================================================================== *)
(** * ContentBasedFilter: the properties of the specification            *)
(* ===================================================================== *)

(** C3, as stated, fails: [bool] is a subclass of [int], so a boolean
    against a different number passes [isinstance(v, (int, float))] and
    contributes [1 / (1 + abs(value - other))], here 1/5 for [True]
    against 5, where the claim has 0. *)
Lemma similarity_bool_counterexample :
  let query := [("seats", SBool true)] in
  let item := [("seats", SInt 5)] in
  _calculate_similarity query item =
    Ok (PFloat (S754_finite false 7205759403792794 (-55))) /\
  score_sum spec_numeric query item = Ok (PInt 0) /\
  _calculate_similarity query item ≠ score_sum spec_numeric query item.
Proof.
  intros query item.
  assert (_calculate_similarity query item =
          Ok (PFloat (S754_finite false 7205759403792794 (-55)))) as H1
    by (vm_compute; reflexivity).
  assert (score_sum spec_numeric query item = Ok (PInt 0)) as H2
    by (vm_compute; reflexivity).
  split_and!; [done..|]. rewrite H1, H2. discriminate.
Qed.

(** C3, amended: the score of a candidate is the sum, over the keys of
    the query in their order, of 0 for a key that the candidate lacks, 1
    for a value equal to the candidate's, [1 / (1 + |value - other|)] for
    two different values that are both [int], [float] or [bool] (a boolean
    counts as the integer 1 or 0), and 0 otherwise; [find_similar] pairs
    every stored item with this score. *)
Theorem similarity_score_sum (query : dict string scalar) :
  (forall item,
     _calculate_similarity query item =
     score_sum isinstance_int_float query item) /\
  (forall self scores,
     find_similar_scores self query = Ok scores ->
     Forall2 (fun r it =>
         r.1 = it.1 /\ score_sum isinstance_int_float query it.2 = Ok r.2)
       scores (items self)).
Proof.
  split; [apply calculate_similarity_sum|].
  intros self scores Hs. apply find_similar_scores_spec in Hs.
  eapply Forall2_impl; [exact Hs|].
  intros r it [? ?]. by rewrite <- calculate_similarity_sum.
Qed.

Lemma similarity_score_sum_witness :
  find_similar_scores route_filter [("price", SInt 10)] =
    Ok [("x", PInt 1);
        ("y", PFloat (S754_finite false 6004799503160661 (-55)))] /\
  score_sum isinstance_int_float [("price", SInt 10)] [("price", SInt 15)] =
    Ok (PFloat (S754_finite false 6004799503160661 (-55))).
Proof.
  assert (find_similar_scores route_filter [("price", SInt 10)] =
    Ok [("x", PInt 1);
        ("y", PFloat (S754_finite false 6004799503160661 (-55)))]) as H
    by (vm_compute; reflexivity).
  split; [exact H|].
  pose proof (proj2 (similarity_score_sum [("price", SInt 10)]) _ _ H) as HF.
  inversion HF as [|? ? ? ? _ HF']. inversion HF' as [|? ? ? ? [_ Hy] _].
  exact Hy.
Defined.

(** C4, as stated, fails for a negative [n]: [l[:n]] drops the last [-n]
    entries of the ranking and keeps the rest. *)
Lemma negative_n_counterexample :
  recommend cf_model ["chai"] (-1) =
    [("samosa", 2); ("pakora", 2); ("jalebi", 1); ("poha", 1); ("dosa", 1);
     ("vada", 1); ("idli", 0)] /\
  recommend cf_model ["chai"] (-1) ≠ [] /\
  find_similar route_filter [("price", SInt 10)] (-1) = Ok [("x", PInt 1)] /\
  find_similar route_filter [("price", SInt 10)] (-1) ≠ Ok [].
Proof.
  assert (recommend cf_model ["chai"] (-1) =
    [("samosa", 2); ("pakora", 2); ("jalebi", 1); ("poha", 1); ("dosa", 1);
     ("vada", 1); ("idli", 0)]) as H1 by (vm_compute; reflexivity).
  assert (find_similar route_filter [("price", SInt 10)] (-1) =
          Ok [("x", PInt 1)]) as H2 by (vm_compute; reflexivity).
  split_and!; [done| |done|]; [rewrite H1|rewrite H2]; discriminate.
Qed.

(** C4, amended: with [n = 0] both [recommend] and [find_similar] return
    the empty list; with [n < 0] [recommend] returns its ranking without
    the last [-n] entries, and so does [find_similar] where no score is
    NaN, which is empty only when the ranking has at most [-n] entries.
    [recommend] raises nothing, [find_similar] raises what the scoring
    raises. *)
Theorem nonpositive_n (self : ItemToItemCF) (user_history : list string)
    (cb : ContentBasedFilter) (query : dict string scalar) (n : Z) :
  n <= 0 ->
  let ranked :=
    sorted_reverse snd Z.ltb (recommend_scores self user_history) in
  (n = 0 -> recommend self user_history n = []) /\
  (n < 0 -> recommend self user_history n =
            take (length ranked - Z.to_nat (- n)) ranked) /\
  (forall scores, find_similar_scores cb query = Ok scores ->
     let ranked := sorted_reverse snd py_lt scores in
     (n = 0 -> find_similar cb query n = Ok []) /\
     (n < 0 -> Forall (fun r => pynum_is_nan r.2 = false) scores ->
        find_similar cb query n =
          Ok (take (length ranked - Z.to_nat (- n)) ranked) /\
        Sorted (fun r1 r2 => py_ge r1.2 r2.2 = true) ranked /\
        ranked ≡ₚ scores)) /\
  (forall e, find_similar_scores cb query = Raise e ->
     find_similar cb query n = Raise e).
Proof.
  intros Hn ranked. split_and!.
  - intros ->. apply slice_to_zero.
  - intros Hneg. by apply slice_to_negative.
  - intros scores Hs ranked'. rewrite (find_similar_unfold _ _ _ _ Hs). split.
    + intros ->. by rewrite slice_to_zero.
    + intros Hneg Hnan. split_and!.
      * by rewrite slice_to_negative.
      * apply (sorted_reverse_sorted snd py_lt (fun x y => py_ge x y = true)
                 (fun x => pynum_is_nan x = false));
          [|apply py_nlt_ge|done].
        intros x y _ _. apply py_lt_ge.
      * apply sorted_reverse_perm.
  - intros e He. unfold find_similar. by rewrite He.
Qed.

Lemma nonpositive_n_witness :
  -1 <= 0 /\
  recommend cf_model ["chai"] (-1) =
    take 7 (sorted_reverse snd Z.ltb (recommend_scores cf_model ["chai"])) /\
  find_similar route_filter [("price", SInt 10)] (-1) = Ok [("x", PInt 1)] /\
  recommend cf_model ["chai"] 0 = [] /\
  find_similar route_filter [("price", SInt 10)] 0 = Ok [].
Proof.
  assert (-1 <= 0) as H by lia.
  assert (0 <= 0) as H0 by lia.
  assert (find_similar_scores route_filter [("price", SInt 10)] =
          Ok [("x", PInt 1);
              ("y", PFloat (S754_finite false 6004799503160661 (-55)))])
    as Hs by (vm_compute; reflexivity).
  split; [exact H|]. split_and!.
  - rewrite (proj1 (proj2 (nonpositive_n cf_model ["chai"] route_filter
                             [("price", SInt 10)] (-1) H)))
      by lia.
    vm_compute. reflexivity.
  - rewrite (proj1 (proj2 (proj1 (proj2 (proj2
               (nonpositive_n cf_model ["chai"] route_filter
                  [("price", SInt 10)] (-1) H))) _ Hs)
               ltac:(lia) ltac:(repeat constructor))).
    vm_compute. reflexivity.
  - exact (proj1 (nonpositive_n cf_model ["chai"] route_filter
                    [("price", SInt 10)] 0 H0) eq_refl).
  - exact (proj1 (proj1 (proj2 (proj2 (nonpositive_n cf_model ["chai"]
              route_filter [("price", SInt 10)] 0 H0))) _ Hs) eq_refl).
Defined.

(** C6, as stated, fails for [find_similar]: a NaN among the feature values
    makes the score NaN, and no score is greater than or equal to a NaN. *)
Lemma find_similar_sorted_counterexample :
  find_similar route_filter [("price", SFloat S754_nan)] 5 =
    Ok [("x", PFloat S754_nan); ("y", PFloat S754_nan)] /\
  py_ge (PFloat S754_nan) (PFloat S754_nan) = false /\
  ~ Sorted (fun r1 r2 : string * pynum => py_ge r1.2 r2.2 = true)
      [("x", PFloat S754_nan); ("y", PFloat S754_nan)].
Proof.
  split_and!; [vm_compute; reflexivity..|].
  intros H. inversion H as [|? ? _ Hhd]. inversion Hhd as [|? ? Hge].
  vm_compute in Hge. discriminate Hge.
Qed.

(** C6, amended: what [recommend] returns is sorted by score, from the
    greatest to the least, in every state and for every input; what
    [find_similar] returns is sorted in this way whenever no stored item
    has NaN for its score, and so whenever no feature value of the query
    or of a stored item is NaN. *)
Theorem ranking_sorted (self : ItemToItemCF) (user_history : list string)
    (cb : ContentBasedFilter) (query : dict string scalar) (n : Z) :
  Sorted (fun r1 r2 => r2.2 <= r1.2) (recommend self user_history n) /\
  (forall scores,
     find_similar_scores cb query = Ok scores ->
     Forall (fun r => pynum_is_nan r.2 = false) scores ->
     exists ranked,
       find_similar cb query n = Ok ranked /\
       Sorted (fun r1 r2 => py_ge r1.2 r2.2 = true) ranked) /\
  (forall ranked,
     no_nan_features query ->
     Forall (fun it => no_nan_features it.2) (items cb) ->
     find_similar cb query n = Ok ranked ->
     Sorted (fun r1 r2 => py_ge r1.2 r2.2 = true) ranked).
Proof.
  assert (forall scores,
    Forall (fun r : string * pynum => pynum_is_nan r.2 = false) scores ->
    Sorted (fun r1 r2 => py_ge r1.2 r2.2 = true)
      (slice_to n (sorted_reverse snd py_lt scores))) as Hsorted.
  { intros scores Hnan. apply Sorted_slice_to.
    apply (sorted_reverse_sorted snd py_lt (fun x y => py_ge x y = true)
             (fun x => pynum_is_nan x = false)); [|apply py_nlt_ge|done].
    intros x y _ _. apply py_lt_ge. }
  split_and!.
  - unfold recommend. apply Sorted_slice_to.
    apply (sorted_reverse_sorted snd Z.ltb (fun x y => y <= x)
             (fun _ => True)).
    + intros x y _ _ Hlt. lia.
    + intros x y _ _ Hlt. lia.
    + by apply Forall_forall.
  - intros scores Hs Hnan.
    exists (slice_to n (sorted_reverse snd py_lt scores)).
    split; [by apply find_similar_unfold|by apply Hsorted].
  - intros ranked Hq Hitems. unfold find_similar.
    destruct (find_similar_scores cb query) as [scores|] eqn:Hs; simpl;
      [|done].
    intros [= <-]. apply Hsorted.
    by apply (find_similar_scores_no_nan cb query).
Qed.

Lemma ranking_sorted_witness :
  Sorted (fun r1 r2 : string * pynum => py_ge r1.2 r2.2 = true)
    [("x", PInt 1); ("y", PFloat (S754_finite false 6004799503160661 (-55)))].
Proof.
  apply (proj2 (proj2 (ranking_sorted cf_model ["chai"] route_filter
                         [("price", SInt 10)] 5))).
  - repeat constructor.
  - repeat constructor.
  - vm_compute. reflexivity.
Defined.

(* ===================================================================== *)
(** * Further properties of [ItemToItemCF]                                *)
(* ===================================================================== *)

Lemma items_of_snoc uid interactions x :
  items_of uid (interactions ++ [x]) =
  items_of uid interactions ++
  (if decide (user_id x = uid) then [item_id x] else []).
Proof.
  unfold items_of. rewrite filter_app, fmap_app. f_equal.
  destruct (decide (user_id x = uid)) as [Hu|Hu].
  - by rewrite filter_cons_True.
  - by rewrite filter_cons_False.
Qed.

Lemma users_of_snoc interactions x :
  users_of (interactions ++ [x]) =
  register_item (users_of interactions) (user_id x).
Proof. unfold users_of. by rewrite fmap_app, fold_left_app. Qed.

Lemma user_items_of_snoc interactions x user_items :
  user_items_of (interactions ++ [x]) user_items =
  group_item (user_items_of interactions user_items) (user_id x) (item_id x).
Proof. unfold user_items_of. by rewrite fold_left_app. Qed.

Lemma users_of_elem interactions uid :
  uid ∈ users_of interactions <-> uid ∈ user_id <$> interactions.
Proof.
  induction interactions as [|x l IH] using rev_ind.
  - done.
  - rewrite users_of_snoc, register_item_elem, IH, fmap_app, elem_of_app.
    simpl. rewrite list_elem_of_singleton. done.
Qed.

Lemma users_of_NoDup interactions : NoDup (users_of interactions).
Proof.
  induction interactions as [|x l IH] using rev_ind; [apply NoDup_nil_2|].
  rewrite users_of_snoc. by apply register_item_NoDup.
Qed.

Lemma items_of_no_user interactions uid :
  uid ∉ users_of interactions -> items_of uid interactions = [].
Proof.
  rewrite users_of_elem. intros Hu. unfold items_of.
  rewrite filter_none; [done|].
  intros x Hx Hux. apply Hu, list_elem_of_fmap. by exists x.
Qed.

Ltac refold_fmap :=
  repeat match goal with
  | |- context [list_fmap ?A ?B ?f ?l] =>
      change (list_fmap A B f l) with (fmap (M:=list) f l)
  end.

Section KeyedLists.
Context {V : Type} (g : string -> V).

Lemma dict_get_keyed (l : list string) u :
  dict_get u ((fun w => (w, g w)) <$> l) =
  if bool_decide (u ∈ l) then Some (g u) else None.
Proof.
  induction l as [|w l IH]; [done|]. simpl. refold_fmap.
  destruct (decide (u = w)) as [->|Hne].
  - by rewrite bool_decide_true by apply list_elem_of_here.
  - rewrite IH. apply (f_equal (fun b : bool => if b then _ else _)).
    apply bool_decide_ext. rewrite elem_of_cons. intuition congruence.
Qed.

Lemma dict_set_keyed_new (l : list string) u v :
  u ∉ l ->
  dict_set u v ((fun w => (w, g w)) <$> l) =
  ((fun w => (w, g w)) <$> l) ++ [(u, v)].
Proof.
  induction l as [|w l IH]; intros Hu; [done|]. simpl. refold_fmap.
  apply not_elem_of_cons in Hu as [Hne Hu].
  rewrite decide_False by done. f_equal. by apply IH.
Qed.

Lemma dict_get_keyed_snoc (l : list string) u v :
  u ∉ l -> dict_get u (((fun w => (w, g w)) <$> l) ++ [(u, v)]) = Some v.
Proof.
  induction l as [|w l IH]; intros Hu; simpl; refold_fmap.
  - by rewrite decide_True.
  - apply not_elem_of_cons in Hu as [Hne Hu].
    rewrite decide_False by done. by apply IH.
Qed.

Lemma dict_set_keyed_snoc (l : list string) u v v' :
  u ∉ l ->
  dict_set u v' (((fun w => (w, g w)) <$> l) ++ [(u, v)]) =
  ((fun w => (w, g w)) <$> l) ++ [(u, v')].
Proof.
  induction l as [|w l IH]; intros Hu; simpl; refold_fmap.
  - by rewrite decide_True.
  - apply not_elem_of_cons in Hu as [Hne Hu].
    rewrite decide_False by done. f_equal. by apply IH.
Qed.

Lemma dict_set_keyed_present (l : list string) u v :
  NoDup l -> u ∈ l ->
  dict_set u v ((fun w => (w, g w)) <$> l) =
  (fun w => (w, if decide (w = u) then v else g w)) <$> l.
Proof.
  induction l as [|w l IH]; intros Hnd Hu; [by apply elem_of_nil in Hu|].
  apply NoDup_cons in Hnd as [Hw Hnd]. simpl. refold_fmap.
  destruct (decide (u = w)) as [->|Hne].
  - rewrite decide_True by done. f_equal.
    apply list_fmap_ext. intros i w' Hw'. rewrite decide_False; [done|].
    intros ->. apply Hw. by eapply list_elem_of_lookup_2.
  - rewrite decide_False by done. f_equal. apply IH; [done|].
    by apply elem_of_cons in Hu as [?|?].
Qed.
End KeyedLists.

(** The first loop of [fit] groups the interactions by user: one entry for
    every user, in the order in which the users come first, with the user's
    items in their order and with their repetitions. *)
Lemma user_items_of_grouped interactions :
  user_items_of interactions [] =
  (fun uid => (uid, items_of uid interactions)) <$> users_of interactions.
Proof.
  induction interactions as [|x l IH] using rev_ind; [done|].
  rewrite user_items_of_snoc, IH, users_of_snoc. unfold group_item, dict_mem.
  rewrite dict_get_keyed. unfold register_item.
  destruct (decide (user_id x ∈ users_of l)) as [Hu|Hu].
  - rewrite !bool_decide_true by done. rewrite dict_get_keyed.
    rewrite bool_decide_true by done. simpl.
    rewrite dict_set_keyed_present by (done || apply users_of_NoDup).
    apply list_fmap_ext. intros i w Hw. f_equal.
    rewrite items_of_snoc.
    destruct (decide (w = user_id x)) as [->|Hne].
    + by rewrite decide_True.
    + rewrite decide_False by done. by rewrite app_nil_r.
  - rewrite !bool_decide_false by done.
    rewrite (dict_set_keyed_new _ _ _ [] Hu).
    rewrite dict_get_keyed_snoc, dict_set_keyed_snoc by done.
    rewrite fmap_app. simpl. f_equal.
    + apply list_fmap_ext. intros i w Hw. f_equal.
      rewrite items_of_snoc, decide_False, app_nil_r; [done|].
      intros Heq. apply Hu. rewrite Heq. by eapply list_elem_of_lookup_2.
    + rewrite items_of_snoc, decide_True by done.
      by rewrite (items_of_no_user l _ Hu).
Qed.

(** ** What the co-occurrence table counts *)

Lemma occurrences_nil {A} `{EqDecision A} (x : A) : occurrences x [] = 0.
Proof. done. Qed.

Lemma occurrences_cons {A} `{EqDecision A} (x y : A) l :
  occurrences x (y :: l) = (if decide (y = x) then 1 else 0) + occurrences x l.
Proof.
  unfold occurrences. destruct (decide (y = x)) as [Hy|Hy].
  - rewrite filter_cons_True by done. simpl. lia.
  - rewrite filter_cons_False by done. lia.
Qed.

Lemma occurrences_app {A} `{EqDecision A} (x : A) l1 l2 :
  occurrences x (l1 ++ l2) = occurrences x l1 + occurrences x l2.
Proof. unfold occurrences. rewrite filter_app, length_app. lia. Qed.

Lemma occurrences_nonneg {A} `{EqDecision A} (x : A) l : 0 <= occurrences x l.
Proof. unfold occurrences. lia. Qed.

Lemma occurrences_NoDup {A} `{EqDecision A} (x : A) l :
  NoDup l -> occurrences x l = if bool_decide (x ∈ l) then 1 else 0.
Proof.
  induction 1 as [|y l Hy Hnd IH]; [done|].
  rewrite occurrences_cons, IH. destruct (decide (y = x)) as [->|Hne].
  - rewrite (bool_decide_true (x ∈ x :: l)) by apply list_elem_of_here.
    by rewrite bool_decide_false.
  - rewrite Z.add_0_l. apply (f_equal (fun b : bool => if b then _ else _)).
    apply bool_decide_ext. rewrite elem_of_cons. intuition congruence.
Qed.

Lemma occurrences_bind {A B} `{EqDecision B} (x : B) (f : A -> list B)
    (P : A -> Prop) `{forall a, Decision (P a)} (l : list A) :
  (forall a, a ∈ l -> occurrences x (f a) = if decide (P a) then 1 else 0) ->
  occurrences x (l ≫= f) = Z.of_nat (length (filter P l)).
Proof.
  induction l as [|a l IH]; intros Hl; [done|].
  rewrite bind_cons, occurrences_app, IH, Hl.
  - destruct (decide (P a)).
    + rewrite filter_cons_True by done. simpl. lia.
    + rewrite filter_cons_False by done. lia.
  - apply list_elem_of_here.
  - intros b Hb. by apply Hl, list_elem_of_further.
Qed.

Lemma co_get_fold_bump keys co k :
  co_get (fold_left bump keys co) k = co_get co k + occurrences k keys.
Proof.
  revert co. induction keys as [|key keys IH]; intros co; simpl.
  - rewrite occurrences_nil. lia.
  - rewrite IH, co_get_bump, occurrences_cons. lia.
Qed.

Lemma count_pairs_fold items co :
  count_pairs items co = fold_left bump (position_pairs items) co.
Proof.
  revert co. induction items as [|item1 rest IH]; intros co; [done|].
  simpl. rewrite IH, fold_left_app. f_equal.
  generalize rest as l. clear. intros l. revert co.
  induction l as [|item2 l IH]; intros co; [done|]. simpl. apply IH.
Qed.

Lemma fit_count_fold user_items co :
  fit_count user_items co =
  fold_left bump (user_items ≫= fun ui => position_pairs ui.2) co.
Proof.
  unfold fit_count. revert co.
  induction user_items as [|[uid items] l IH]; intros co; [done|].
  simpl. rewrite fold_left_app, <- count_pairs_fold. apply IH.
Qed.

Lemma counted_pairs_grouped interactions :
  (user_items_of interactions [] ≫= fun ui => position_pairs ui.2) =
  counted_pairs interactions.
Proof.
  rewrite user_items_of_grouped. unfold counted_pairs.
  induction (users_of interactions) as [|u us IH]; [done|].
  rewrite fmap_cons, !bind_cons. by rewrite IH.
Qed.

Lemma sorted_pair_eq x y a b :
  sorted_pair x y = sorted_pair a b -> (x = a /\ y = b) \/ (x = b /\ y = a).
Proof.
  unfold sorted_pair.
  destruct (String.ltb y x), (String.ltb b a); intros [= -> ->]; auto.
Qed.

Lemma occurrences_sorted_pair_fmap x a b rest :
  a ≠ b ->
  occurrences (sorted_pair a b) (sorted_pair x <$> rest) =
  if decide (x = a) then occurrences b rest
  else if decide (x = b) then occurrences a rest else 0.
Proof.
  intros Hab. pose proof (sorted_pair_comm a b) as Hcomm.
  induction rest as [|y rest IH].
  - by repeat case_decide.
  - rewrite fmap_cons, !occurrences_cons, IH.
    destruct (decide (sorted_pair x y = sorted_pair a b)) as [Heq|Hne].
    + apply sorted_pair_eq in Heq as [[-> ->]|[-> ->]];
        repeat case_decide; congruence.
    + repeat case_decide; subst; congruence || lia.
Qed.

(** In a list without repetitions two different items make one pair. *)
Lemma occurrences_position_pairs items a b :
  NoDup items -> a ≠ b ->
  occurrences (sorted_pair a b) (position_pairs items) =
  if decide (a ∈ items /\ b ∈ items) then 1 else 0.
Proof.
  intros Hnd Hab. induction Hnd as [|x rest Hx Hnd IH]; cbn [position_pairs].
  - rewrite occurrences_nil, decide_False; [done|].
    by intros [?%elem_of_nil _].
  - rewrite occurrences_app, occurrences_sorted_pair_fmap, IH by done.
    rewrite !(occurrences_NoDup _ rest) by done.
    destruct (decide (x = a)) as [->|Hxa]; [|destruct (decide (x = b)) as [->|Hxb]].
    + rewrite (decide_False (P := a ∈ rest /\ _)) by tauto.
      rewrite Z.add_0_r. case_bool_decide as Hb.
      * rewrite decide_True; [done|].
        split; [apply list_elem_of_here|by apply list_elem_of_further].
      * rewrite decide_False; [done|]. rewrite !elem_of_cons.
        intuition congruence.
    + rewrite (decide_False (P := _ /\ b ∈ rest)) by tauto.
      rewrite Z.add_0_r. case_bool_decide as Ha.
      * rewrite decide_True; [done|].
        split; [by apply list_elem_of_further|apply list_elem_of_here].
      * rewrite decide_False; [done|]. rewrite !elem_of_cons.
        intuition congruence.
    + rewrite Z.add_0_l. apply decide_ext. rewrite !elem_of_cons.
      intuition congruence.
Qed.

(** X1. [fit] adds to the count of a key the number of times the key is
    the sorted pair of two positions [i < j] in the list of a user; an item
    that a user has twice is counted twice, and with itself. *)
Theorem fit_counts_position_pairs (interactions : list Interaction)
    (self : ItemToItemCF) (key : string * string) :
  co_get (co_occurrence (fit interactions self)) key =
  co_get (co_occurrence self) key +
  occurrences key (counted_pairs interactions).
Proof.
  rewrite fit_co_occurrence, fit_count_fold, counted_pairs_grouped.
  apply co_get_fold_bump.
Qed.

(** X2. When no user has an item twice, the count that [fit] adds for two
    different items is the number of users that have both. *)
Theorem fit_counts_users (interactions : list Interaction)
    (self : ItemToItemCF) (a b : string) :
  Forall (fun uid => NoDup (items_of uid interactions))
    (users_of interactions) ->
  a ≠ b ->
  co_get (co_occurrence (fit interactions self)) (sorted_pair a b) =
  co_get (co_occurrence self) (sorted_pair a b) +
  Z.of_nat (length (filter
    (fun uid => a ∈ items_of uid interactions /\
                b ∈ items_of uid interactions)
    (users_of interactions))).
Proof.
  intros Hnd Hab. rewrite fit_counts_position_pairs. f_equal.
  unfold counted_pairs. apply occurrences_bind.
  intros uid Hu. apply occurrences_position_pairs; [|done].
  by apply (proj1 (Forall_forall _ _) Hnd).
Qed.

Lemma fit_counts_users_witness :
  Forall (fun uid => NoDup (items_of uid SAMPLE_INTERACTIONS))
    (users_of SAMPLE_INTERACTIONS) /\
  "chai" ≠ "samosa" /\
  co_get (co_occurrence cf_model) (sorted_pair "chai" "samosa") = 2.
Proof.
  assert (Forall (fun uid => NoDup (items_of uid SAMPLE_INTERACTIONS))
            (users_of SAMPLE_INTERACTIONS)) as H
    by (apply (bool_decide_unpack _); vm_compute; exact I).
  assert ("chai" ≠ "samosa") as Hne by discriminate.
  split_and!; [exact H|exact Hne|].
  unfold cf_model.
  rewrite (fit_counts_users SAMPLE_INTERACTIONS ItemToItemCF_init
             "chai" "samosa" H Hne).
  vm_compute. reflexivity.
Defined.

(** X3. [fit] only adds: no count goes down, the items that were known
    keep their places at the front of the item set, and an item is known
    afterwards exactly when it was known or occurs in the interactions,
    once in either case. *)
Theorem fit_only_adds (interactions : list Interaction) (self : ItemToItemCF) :
  (forall key, co_get (co_occurrence self) key <=
               co_get (co_occurrence (fit interactions self)) key) /\
  item_ids self `prefix_of` item_ids (fit interactions self) /\
  (forall item, item ∈ item_ids (fit interactions self) <->
                item ∈ item_ids self \/ item ∈ item_id <$> interactions) /\
  (NoDup (item_ids self) -> NoDup (item_ids (fit interactions self))).
Proof.
  split_and!.
  - intros key. rewrite fit_counts_position_pairs.
    pose proof (occurrences_nonneg key (counted_pairs interactions)). lia.
  - rewrite fit_item_ids, item_ids_of_merge. by eexists.
  - intros item. rewrite fit_item_ids. apply item_ids_of_elem.
  - rewrite fit_item_ids. apply item_ids_of_NoDup.
Qed.

Lemma positive_counts_empty : positive_counts ∅.
Proof. intros k v Hv. by rewrite lookup_empty in Hv. Qed.

Lemma positive_counts_co_get co key : positive_counts co -> 0 <= co_get co key.
Proof.
  intros Hco. unfold co_get.
  destruct (co !! key) as [v|] eqn:Hv; simpl; [|done].
  specialize (Hco key v Hv). lia.
Qed.

Lemma positive_counts_bump co key :
  positive_counts co -> positive_counts (bump co key).
Proof.
  intros Hco k v. unfold bump.
  destruct (decide (key = k)) as [->|Hne].
  - rewrite lookup_insert_eq. intros [= <-].
    pose proof (positive_counts_co_get co k Hco). lia.
  - rewrite lookup_insert_ne by done. apply Hco.
Qed.

Lemma positive_counts_fold keys co :
  positive_counts co -> positive_counts (fold_left bump keys co).
Proof.
  revert co. induction keys as [|key keys IH]; intros co Hco; [done|].
  simpl. by apply IH, positive_counts_bump.
Qed.

Lemma fitted_positive_counts self :
  fitted self -> positive_counts (co_occurrence self).
Proof.
  induction 1 as [|interactions self _ IH]; [apply positive_counts_empty|].
  rewrite fit_co_occurrence, fit_count_fold. by apply positive_counts_fold.
Qed.

(** X4. In a fitted state the co-occurrence table stores no zero: every
    stored count is at least 1, so every similarity is at least 0, and a
    pair is stored exactly when its count is positive. *)
Theorem stored_counts_positive (self : ItemToItemCF) :
  fitted self ->
  (forall key v, co_occurrence self !! key = Some v -> 1 <= v) /\
  (forall key, is_Some (co_occurrence self !! key) <->
               0 < co_get (co_occurrence self) key) /\
  (forall a b v, similarity self a b = Some v -> 0 <= v).
Proof.
  intros Hfit. pose proof (fitted_positive_counts self Hfit) as Hpos.
  split_and!.
  - exact Hpos.
  - intros key. unfold co_get.
    destruct (co_occurrence self !! key) as [v|] eqn:Hv; simpl.
    + specialize (Hpos key v Hv). split; [lia|by eauto].
    + split; [by intros [? ?]|lia].
  - intros a b v. rewrite similarity_fitted by by apply fitted_rows_complete.
    case_bool_decide; [|done]. intros [= <-].
    by apply positive_counts_co_get.
Qed.

Lemma stored_counts_positive_witness :
  fitted cf_model /\
  (is_Some (co_occurrence cf_model !! ("chai", "samosa")) <->
   0 < co_get (co_occurrence cf_model) ("chai", "samosa")).
Proof.
  assert (fitted cf_model) as H by apply fitted_fit, fitted_init.
  split; [exact H|].
  exact (proj1 (proj2 (stored_counts_positive cf_model H)) ("chai", "samosa")).
Defined.

(** ** What [recommend] ranks *)

Lemma dict_get_NoDup_elem {V} (d : list (string * V)) k v :
  NoDup (dict_keys d) -> (k, v) ∈ d -> dict_get k d = Some v.
Proof.
  unfold dict_keys. induction d as [|[k' v'] d IH]; intros Hnd Hin;
    [by apply elem_of_nil in Hin|].
  rewrite fmap_cons in Hnd. apply NoDup_cons in Hnd as [Hk' Hnd]. simpl.
  apply elem_of_cons in Hin as [[= -> ->]|Hin].
  - by rewrite decide_True.
  - rewrite decide_False; [by apply IH|].
    intros ->. apply Hk'. apply list_elem_of_fmap. by exists (k', v).
Qed.

Lemma dict_get_None_keys {V} (d : list (string * V)) k :
  k ∉ dict_keys d -> dict_get k d = None.
Proof.
  intros Hk. destruct (dict_get k d) eqn:Hd; [|done].
  destruct Hk. apply elem_of_dict_keys. by eexists.
Qed.

Lemma filter_ext_in {A} (P Q : A -> Prop) `{forall x, Decision (P x)}
    `{forall x, Decision (Q x)} (l : list A) :
  (forall x, x ∈ l -> P x <-> Q x) -> filter P l = filter Q l.
Proof.
  induction l as [|x l IH]; intros Hl; [done|].
  assert (filter P l = filter Q l) as Hrec.
  { apply IH. intros y Hy. by apply Hl, list_elem_of_further. }
  destruct (decide (P x)) as [HP|HP].
  - rewrite !filter_cons_True; [by rewrite Hrec|..]; try done.
    by apply (Hl x (list_elem_of_here _ _)).
  - rewrite !filter_cons_False; [done|..]; try done.
    by rewrite <- (Hl x (list_elem_of_here _ _)).
Qed.

Lemma fit_row_NoDup co ids item : NoDup (dict_keys (fit_row co ids item)).
Proof.
  unfold fit_row.
  enough (forall row, NoDup (dict_keys row) ->
    NoDup (dict_keys (fold_left (fun row other_item =>
        if bool_decide (item ≠ other_item)
        then dict_set other_item (co_get co (sorted_pair item other_item)) row
        else row) ids row))) as H by (apply H, NoDup_nil_2).
  induction ids as [|x ids IH]; intros row Hrow; [done|].
  cbn [fold_left]. apply IH. case_bool_decide; [|done].
  by apply dict_keys_set_NoDup.
Qed.

(** The keys of a row are the other known items, in their order. *)
Lemma fit_row_keys_list co ids item :
  NoDup ids ->
  dict_keys (fit_row co ids item) = filter (fun o => item ≠ o) ids.
Proof.
  intros Hnd. unfold fit_row.
  enough (forall row, (forall o, o ∈ ids -> o ∉ dict_keys row) ->
    dict_keys (fold_left (fun row other_item =>
        if bool_decide (item ≠ other_item)
        then dict_set other_item (co_get co (sorted_pair item other_item)) row
        else row) ids row) =
    dict_keys row ++ filter (fun o => item ≠ o) ids) as H.
  { rewrite H; [done|]. intros o _. apply not_elem_of_nil. }
  induction Hnd as [|x ids Hx Hnd IH]; intros row Hrow.
  - by rewrite app_nil_r.
  - cbn [fold_left]. rewrite IH.
    + case_bool_decide as Hix.
      * rewrite dict_keys_set. unfold dict_mem.
        rewrite dict_get_None_keys by apply Hrow, list_elem_of_here.
        rewrite filter_cons_True by done. by rewrite <- app_assoc.
      * rewrite filter_cons_False; [done|]. by intros ?.
    + intros o Ho. case_bool_decide.
      * rewrite elem_of_dict_keys_set. intros [->|Hk]; [done|].
        revert Hk. by apply Hrow, list_elem_of_further.
      * by apply Hrow, list_elem_of_further.
Qed.

Lemma recommend_row_get h scores row c :
  NoDup (dict_keys row) ->
  dict_get c (recommend_row h scores row) =
  if bool_decide (c ∈ h) then dict_get c scores
  else match dict_get c row with
       | Some sim => Some (default 0 (dict_get c scores) + sim)
       | None => dict_get c scores
       end.
Proof.
  unfold recommend_row, dict_keys. revert scores.
  induction row as [|[o s] row IH]; intros scores Hnd.
  - simpl. by destruct (bool_decide _).
  - rewrite fmap_cons in Hnd. apply NoDup_cons in Hnd as [Ho Hnd].
    cbn [fold_left]. rewrite IH by done. clear IH. cbn [dict_get].
    simpl in Ho. destruct (decide (c ∈ h)) as [Hc|Hc].
    + rewrite !bool_decide_true by done.
      case_bool_decide as Hoh; [done|].
      rewrite dict_get_set_ne; [done|]. by intros ->.
    + rewrite !bool_decide_false by done.
      destruct (decide (c = o)) as [->|Hne].
      * rewrite (dict_get_None_keys row o) by done.
        by rewrite bool_decide_false, dict_get_set_eq.
      * case_bool_decide; [done|]. by rewrite dict_get_set_ne.
Qed.

Lemma recommend_row_keys_list h scores row :
  NoDup (dict_keys row) ->
  dict_keys (recommend_row h scores row) =
  dict_keys scores ++
  filter (fun k => (k ∉ h) /\ k ∉ dict_keys scores) (dict_keys row).
Proof.
  unfold recommend_row. revert scores.
  induction row as [|[o s] row IH]; intros scores Hnd.
  - simpl. by rewrite app_nil_r.
  - unfold dict_keys in Hnd. rewrite fmap_cons in Hnd.
    apply NoDup_cons in Hnd as [Ho Hnd].
    cbn [fold_left]. rewrite IH by done. clear IH. simpl in Ho.
    change (dict_keys ((o, s) :: row)) with (o :: dict_keys row).
    case_bool_decide as Hoh.
    + rewrite filter_cons_False by tauto. done.
    + rewrite dict_keys_set. unfold dict_mem.
      destruct (dict_get o scores) as [w|] eqn:Hw.
      * rewrite filter_cons_False; [done|].
        intros [_ Hn]. apply Hn, elem_of_dict_keys. by eexists.
      * assert (o ∉ dict_keys scores) as Hnk.
        { intros [? ?]%elem_of_dict_keys. congruence. }
        rewrite filter_cons_True by done. rewrite <- app_assoc. simpl.
        do 2 f_equal. apply filter_ext_in. intros k Hk.
        rewrite elem_of_app, list_elem_of_singleton.
        assert (k ≠ o) by (by intros ->). tauto.
Qed.

Lemma recommend_scores_keys_list self h hist_item :
  rows_complete self -> NoDup (item_ids self) ->
  hist_item ∈ h -> hist_item ∈ item_ids self ->
  dict_keys (recommend_scores self h) =
  filter (fun c => c ∉ h) (item_ids self).
Proof.
  intros Hrows Hnd Hh Hknown. unfold recommend_scores.
  set (C := filter (fun c => c ∉ h) (item_ids self)).
  assert (forall x scores, x ∈ h -> x ∈ item_ids self ->
            dict_keys scores = [] \/ dict_keys scores = C ->
            dict_keys (recommend_step self h scores x) = C) as Hstep.
  { intros x scores Hx Hxk Hsc. unfold recommend_step.
    rewrite Hrows, bool_decide_true by done.
    rewrite recommend_row_keys_list by apply fit_row_NoDup.
    rewrite fit_row_keys_list by done.
    destruct Hsc as [->| ->].
    - simpl. rewrite list_filter_filter. apply filter_ext_in.
      intros k Hk. split; [tauto|]. intros Hkh.
      split_and!; [done|apply not_elem_of_nil|by intros ->].
    - rewrite filter_none; [apply app_nil_r|].
      intros k [_ Hk]%list_elem_of_filter [Hkh Hn]. apply Hn.
      by apply list_elem_of_filter. }
  assert (forall l scores, (forall x, x ∈ l -> x ∈ h) ->
            dict_keys scores = C ->
            dict_keys (fold_left (recommend_step self h) l scores) = C) as HA.
  { induction l as [|x l IH]; intros scores Hl Hsc; [done|].
    cbn [fold_left]. apply IH.
    - intros y Hy. by apply Hl, list_elem_of_further.
    - destruct (decide (x ∈ item_ids self)) as [Hx|Hx].
      + apply Hstep; [apply Hl, list_elem_of_here|done|by right].
      + unfold recommend_step. by rewrite Hrows, bool_decide_false. }
  enough (forall l scores, (forall x, x ∈ l -> x ∈ h) ->
            hist_item ∈ l -> dict_keys scores = [] ->
            dict_keys (fold_left (recommend_step self h) l scores) = C) as HB
    by by apply HB.
  induction l as [|x l IH]; intros scores Hl Hin Hsc;
    [by apply elem_of_nil in Hin|].
  cbn [fold_left]. destruct (decide (x ∈ item_ids self)) as [Hx|Hx].
  - apply HA; [intros y Hy; by apply Hl, list_elem_of_further|].
    apply Hstep; [apply Hl, list_elem_of_here|done|by left].
  - apply elem_of_cons in Hin as [->|Hin]; [done|].
    apply IH; [intros y Hy; by apply Hl, list_elem_of_further|done|].
    unfold recommend_step. by rewrite Hrows, bool_decide_false.
Qed.

(** The score of a candidate is its [history_score]. *)
Lemma recommend_scores_get self h c :
  rows_complete self -> c ∈ item_ids self -> c ∉ h ->
  default 0 (dict_get c (recommend_scores self h)) = history_score self h c.
Proof.
  intros Hrows Hc Hch. unfold recommend_scores, history_score.
  enough (forall l scores, (forall x, x ∈ l -> x ∈ h) ->
    default 0 (dict_get c (fold_left (recommend_step self h) l scores)) =
    default 0 (dict_get c scores) +
    foldr Z.add 0
      ((fun x => co_get (co_occurrence self) (sorted_pair x c)) <$>
       filter (fun x => x ∈ item_ids self) l)) as H
    by by rewrite H.
  induction l as [|x l IH]; intros scores Hl; [simpl; lia|].
  cbn [fold_left]. rewrite IH by (intros y Hy; by apply Hl, list_elem_of_further).
  unfold recommend_step. rewrite Hrows.
  destruct (decide (x ∈ item_ids self)) as [Hx|Hx].
  - rewrite bool_decide_true, filter_cons_True by done.
    rewrite recommend_row_get by apply fit_row_NoDup.
    rewrite bool_decide_false by done. rewrite fit_row_get.
    rewrite bool_decide_true;
      [rewrite fmap_cons; cbn [foldr default]; unfold id; lia|].
    split; [done|]. intros ->. apply Hch, Hl, list_elem_of_here.
  - by rewrite bool_decide_false, filter_cons_False by done.
Qed.

(** ** The sort keeps the order of equal scores *)

Section Stable.
Context {A : Type} (key : A -> Z).

Local Abbreviation up := (ascending key (fun x y : Z => y <= x)).

Lemma up_transitive : Relations_1.Transitive up.
Proof. intros a b c. unfold ascending. lia. Qed.

Lemma insert_asc_up x (l : list A) : Sorted up l -> Sorted up (insert_asc key Z.ltb x l).
Proof.
  intros Hl.
  apply (insert_asc_sorted key Z.ltb (fun x y => y <= x) (fun _ => True));
    try done; try (by apply Forall_forall); intros; lia.
Qed.

Lemma insert_asc_filter x (l : list A) v :
  Sorted up l ->
  filter (fun r => key r = v) (insert_asc key Z.ltb x l) =
  filter (fun r => key r = v) l ++ (if decide (key x = v) then [x] else []).
Proof.
  intros Hl. apply (Sorted_StronglySorted up_transitive) in Hl.
  induction Hl as [|y l Hl IH Hy]; simpl.
  - destruct (decide (key x = v)).
    + by rewrite filter_cons_True.
    + by rewrite filter_cons_False.
  - destruct (key x <? key y) eqn:Hlt.
    + destruct (decide (key x = v)) as [Hx|Hx].
      * rewrite filter_cons_True by done.
        rewrite (filter_none _ (y :: l)); [done|].
        intros z [->|Hz]%elem_of_cons; [lia|].
        pose proof (proj1 (Forall_forall _ _) Hy z Hz) as Hyz.
        unfold ascending in Hyz. lia.
      * rewrite filter_cons_False by done. by rewrite app_nil_r.
    + destruct (decide (key y = v)) as [Hyv|Hyv].
      * rewrite !(filter_cons_True _ y) by done. by rewrite IH.
      * rewrite !(filter_cons_False _ y) by done. by rewrite IH.
Qed.

Lemma sort_asc_filter (l : list A) v :
  filter (fun r => key r = v) (sort_asc key Z.ltb l) =
  filter (fun r => key r = v) l.
Proof.
  unfold sort_asc.
  enough (forall acc, Sorted up acc ->
    filter (fun r => key r = v)
      (fold_left (fun acc x => insert_asc key Z.ltb x acc) l acc) =
    filter (fun r => key r = v) acc ++ filter (fun r => key r = v) l) as H
    by (apply (H []); constructor).
  induction l as [|x l IH]; intros acc Hacc; simpl.
  - by rewrite app_nil_r.
  - rewrite IH by by apply insert_asc_up.
    rewrite insert_asc_filter by done. rewrite <- app_assoc. f_equal.
    destruct (decide (key x = v)).
    + by rewrite filter_cons_True.
    + by rewrite filter_cons_False.
Qed.

(** Among the elements of one key, [sorted(..., reverse=True)] keeps the
    order of its input. *)
Lemma sorted_reverse_stable (l : list A) v :
  filter (fun r => key r = v) (sorted_reverse key Z.ltb l) =
  filter (fun r => key r = v) l.
Proof.
  unfold sorted_reverse.
  by rewrite filter_reverse, sort_asc_filter, filter_reverse, reverse_involutive.
Qed.
End Stable.

Lemma filter_snd_fmap_fst {K} (g : K -> Z) (d : list (K * Z)) v :
  Forall (fun r => r.2 = g r.1) d ->
  (filter (fun r => r.2 = v) d).*1 = filter (fun c => g c = v) d.*1.
Proof.
  induction 1 as [|[c w] d Hr Hd IH]; [done|]. simpl in Hr. subst w.
  rewrite fmap_cons. cbn [fst].
  destruct (decide (g c = v)) as [Hv|Hv].
  - rewrite !filter_cons_True by done. rewrite fmap_cons. by rewrite IH.
  - rewrite !filter_cons_False by done. exact IH.
Qed.

Lemma recommend_scores_values self h :
  rows_complete self ->
  Forall (fun r => r.1 ∈ item_ids self /\ (r.1 ∉ h) /\
                   r.2 = history_score self h r.1)
    (recommend_scores self h).
Proof.
  intros Hrows. apply Forall_forall. intros [c v] Hin. simpl.
  assert (c ∈ dict_keys (recommend_scores self h)) as Hk.
  { unfold dict_keys. apply list_elem_of_fmap. by exists (c, v). }
  pose proof Hk as Hk'.
  apply recommend_scores_keys in Hk' as (Hch & x & row & Hx & Hrow & Hc).
  rewrite Hrows in Hrow. case_bool_decide as Hxk; [|done].
  injection Hrow as <-. apply fit_row_keys in Hc as [Hc _].
  split_and!; [done..|].
  rewrite <- (recommend_scores_get self h c Hrows Hc Hch).
  by rewrite (dict_get_NoDup_elem _ c v (recommend_scores_NoDup self h) Hin).
Qed.

(** X5. In a fitted state every recommendation is a known item outside
    the history, no item is recommended twice, and its score is the sum of
    its co-occurrence counts with the known items of the history, an item
    that the history has twice counting twice. *)
Theorem recommend_ranks_history_scores (self : ItemToItemCF)
    (user_history : list string) (n : Z) :
  fitted self ->
  Forall (fun r => r.1 ∈ item_ids self /\ (r.1 ∉ user_history) /\
                   r.2 = history_score self user_history r.1)
    (recommend self user_history n) /\
  NoDup (recommend self user_history n).*1.
Proof.
  intros Hfit. pose proof (fitted_rows_complete _ Hfit) as Hrows.
  assert (recommend self user_history n `sublist_of`
          sorted_reverse snd Z.ltb (recommend_scores self user_history))
    as Hsub by apply slice_to_sublist.
  split.
  - apply Forall_forall. intros r Hr.
    apply (proj1 (Forall_forall _ _)
             (recommend_scores_values self user_history Hrows)).
    apply (elem_of_sorted_reverse snd Z.ltb).
    by eapply elem_of_sublist.
  - eapply sublist_NoDup; [|by apply fmap_sublist].
    rewrite sorted_reverse_perm. apply recommend_scores_NoDup.
Qed.

Lemma recommend_ranks_history_scores_witness :
  fitted cf_model /\
  Forall (fun r => r.1 ∈ item_ids cf_model /\ (r.1 ∉ ["chai"; "dosa"]) /\
                   r.2 = history_score cf_model ["chai"; "dosa"] r.1)
    (recommend cf_model ["chai"; "dosa"] 3).
Proof.
  assert (fitted cf_model) as H by apply fitted_fit, fitted_init.
  split; [exact H|].
  exact (proj1 (recommend_ranks_history_scores cf_model ["chai"; "dosa"] 3 H)).
Defined.

(** X6. In a fitted state, for a history that holds a known item and for
    [n >= 0], [recommend] returns [n] items, or all candidates when there
    are fewer: the known items outside the history. A smaller [n] gives a
    prefix of what a larger one gives. *)
Theorem recommend_length (self : ItemToItemCF) (user_history : list string)
    (n m : Z) (hist_item : string) :
  fitted self ->
  hist_item ∈ user_history -> hist_item ∈ item_ids self ->
  0 <= n <= m ->
  length (recommend self user_history n) =
    Nat.min (Z.to_nat n)
      (length (filter (fun c => c ∉ user_history) (item_ids self))) /\
  recommend self user_history n `prefix_of` recommend self user_history m.
Proof.
  intros Hfit Hh Hknown Hn.
  pose proof (fitted_rows_complete _ Hfit) as Hrows.
  unfold recommend, slice_to.
  replace (n <? 0) with false by lia. replace (m <? 0) with false by lia.
  split.
  - rewrite length_take, sorted_reverse_length.
    rewrite <- (recommend_scores_keys_list self user_history hist_item)
      by (done || by apply fitted_NoDup).
    unfold dict_keys. by rewrite length_fmap.
  - rewrite <- (Nat.min_l (Z.to_nat n) (Z.to_nat m)) by lia.
    rewrite <- take_take. apply prefix_take.
Qed.

Lemma recommend_length_witness :
  fitted cf_model /\ "chai" ∈ ["chai"] /\ "chai" ∈ item_ids cf_model /\
  0 <= 20 <= 20 /\
  length (recommend cf_model ["chai"] 20) = 8%nat.
Proof.
  assert (fitted cf_model) as H by apply fitted_fit, fitted_init.
  assert ("chai" ∈ ["chai"]) as Hh by apply list_elem_of_here.
  assert ("chai" ∈ item_ids cf_model) as Hk
    by (apply (bool_decide_unpack _); vm_compute; exact I).
  assert (0 <= 20 <= 20) as Hn by lia.
  split; [exact H|]. split; [exact Hh|]. split; [exact Hk|].
  split; [exact Hn|].
  rewrite (proj1 (recommend_length cf_model ["chai"] 20 20 "chai" H Hh Hk Hn)).
  vm_compute. reflexivity.
Defined.

(** X7. Ties go to the item that was registered first: in a fitted state,
    for a history that holds a known item and [n] at least the number of
    candidates, the recommendations of one score are the candidates of that
    score in the order of [item_ids]. *)
Theorem recommend_ties_by_registration (self : ItemToItemCF)
    (user_history : list string) (n : Z) (hist_item : string) (v : Z) :
  fitted self ->
  hist_item ∈ user_history -> hist_item ∈ item_ids self ->
  Z.of_nat (length (filter (fun c => c ∉ user_history) (item_ids self))) <= n ->
  (filter (fun r => r.2 = v) (recommend self user_history n)).*1 =
  filter (fun c => history_score self user_history c = v /\
                   c ∉ user_history)
    (item_ids self).
Proof.
  intros Hfit Hh Hknown Hn.
  pose proof (fitted_rows_complete _ Hfit) as Hrows.
  pose proof (recommend_scores_keys_list self user_history hist_item Hrows
                (fitted_NoDup _ Hfit) Hh Hknown) as Hkeys.
  unfold recommend. rewrite slice_to_all.
  - rewrite (sorted_reverse_stable snd).
    rewrite (filter_snd_fmap_fst (history_score self user_history)).
    + unfold dict_keys in Hkeys. rewrite Hkeys. apply list_filter_filter.
    + eapply Forall_impl; [by apply recommend_scores_values|].
      by intros r (_ & _ & ?).
  - rewrite sorted_reverse_length, <- Hkeys in *.
    unfold dict_keys in Hn. by rewrite length_fmap in Hn.
Qed.

Lemma recommend_ties_by_registration_witness :
  fitted cf_model /\ "chai" ∈ ["chai"] /\ "chai" ∈ item_ids cf_model /\
  (filter (fun r => r.2 = 1) (recommend cf_model ["chai"] 8)).*1 =
    ["jalebi"; "poha"; "dosa"; "vada"].
Proof.
  assert (fitted cf_model) as H by apply fitted_fit, fitted_init.
  assert ("chai" ∈ ["chai"]) as Hh by apply list_elem_of_here.
  assert ("chai" ∈ item_ids cf_model) as Hk
    by (apply (bool_decide_unpack _); vm_compute; exact I).
  split_and!; [exact H|exact Hh|exact Hk|].
  rewrite (recommend_ties_by_registration cf_model ["chai"] 8 "chai" 1 H Hh Hk)
    by (vm_compute; discriminate).
  vm_compute. reflexivity.
Defined.

(** X8. In a fitted state the similarity table is the co-occurrence table
    read through sorted pairs: an entry for every two different known
    items, with the count of their pair or an explicit 0, and no entry for
    an item with itself or with an item that is not known. *)
Theorem similarity_is_co_occurrence (self : ItemToItemCF) (a b : string) :
  fitted self ->
  similarity self a b =
  if bool_decide (a ∈ item_ids self /\ b ∈ item_ids self /\ a ≠ b)
  then Some (co_get (co_occurrence self) (sorted_pair a b))
  else None.
Proof. intros Hfit. by apply similarity_fitted, fitted_rows_complete. Qed.

Lemma similarity_is_co_occurrence_witness :
  fitted cf_model /\
  similarity cf_model "idli" "chai" = Some 0 /\
  similarity cf_model "chai" "chai" = None.
Proof.
  assert (fitted cf_model) as H by apply fitted_fit, fitted_init.
  split; [exact H|]. split.
  - rewrite (similarity_is_co_occurrence cf_model "idli" "chai" H).
    vm_compute. reflexivity.
  - rewrite (similarity_is_co_occurrence cf_model "chai" "chai" H).
    vm_compute. reflexivity.
Defined.

(* ===================================================================== *)
(** * Further properties of [ContentBasedFilter]                          *)
(* ===================================================================== *)

Lemma filled_NoDup self : filled self -> NoDup (dict_keys (items self)).
Proof.
  induction 1 as [|item_id features self _ IH]; [apply NoDup_nil_2|].
  simpl. by apply dict_keys_set_NoDup.
Qed.

(** X9. [add_item] is last write wins: the item reads back with the new
    features, the other items are as they were, an identifier that is
    stored keeps its place and a new one goes to the end, and of two writes
    to one identifier only the second shows. *)
Theorem add_item_last_write_wins (item_id : string)
    (features features' : dict string scalar) (self : ContentBasedFilter) :
  dict_get item_id (items (add_item item_id features self)) = Some features /\
  (forall other, other ≠ item_id ->
     dict_get other (items (add_item item_id features self)) =
     dict_get other (items self)) /\
  dict_keys (items (add_item item_id features self)) =
    (if dict_mem item_id (items self) then dict_keys (items self)
     else dict_keys (items self) ++ [item_id]) /\
  add_item item_id features' (add_item item_id features self) =
    add_item item_id features' self.
Proof.
  split_and!.
  - apply dict_get_set_eq.
  - intros other Hne. simpl. by rewrite dict_get_set_ne.
  - apply dict_keys_set.
  - unfold add_item. simpl. f_equal.
    induction (items self) as [|[k v] d IH]; simpl.
    + by rewrite decide_True.
    + destruct (decide (item_id = k)) as [->|Hne]; simpl.
      * by rewrite decide_True.
      * rewrite decide_False by done. by rewrite IH.
Qed.

Lemma sorted_reverse_flat {A B} (key : A -> B) (lt : B -> B -> bool)
    (l : list A) :
  (forall x y, x ∈ l -> y ∈ l -> lt (key x) (key y) = false) ->
  sorted_reverse key lt l = l.
Proof.
  intros Hflat. unfold sorted_reverse, sort_asc.
  enough (forall l' acc, (forall x y, x ∈ acc ++ l' -> y ∈ acc ++ l' ->
                            lt (key x) (key y) = false) ->
            fold_left (fun acc x => insert_asc key lt x acc) l' acc =
            acc ++ l') as H.
  { rewrite H; [simpl; apply reverse_involutive|].
    intros x y Hx Hy. rewrite app_nil_l, elem_of_reverse in Hx, Hy.
    by apply Hflat. }
  clear. induction l' as [|x l' IH]; intros acc Hflat; simpl.
  - by rewrite app_nil_r.
  - assert (insert_asc key lt x acc = acc ++ [x]) as ->.
    { assert (forall y, y ∈ acc -> lt (key x) (key y) = false) as Hx.
      { intros y Hy. apply Hflat; rewrite elem_of_app, elem_of_cons; auto. }
      clear -Hx. induction acc as [|y acc IH]; [done|]. simpl.
      rewrite Hx by apply list_elem_of_here. f_equal. apply IH.
      intros z Hz. by apply Hx, list_elem_of_further. }
    rewrite IH, <- app_assoc; [done|].
    intros z y Hz Hy. rewrite <- app_assoc in Hz, Hy. by apply Hflat.
Qed.
